(** * fal.ai MCP server: tool dispatch and result normalisation

    A shallow embedding of the TypeScript sources
      - [src/config.ts]      (loadConfig),
      - [src/fal-client.ts]  (FalClient: run, runLong, the 22 client
                              methods, handleError),
      - [src/index.ts]       (downloadFile, getAutoSavePath, the four
                              extractors, the tools/list catalogue and the
                              tools/call handler),
    followed by the properties of the dispatch pipeline. *)

From Stdlib Require Import String Ascii List ZArith QArith Bool Lia DecimalString.
From Stdlib Require DecimalZ.
Import ListNotations.
Open Scope string_scope.
Set Warnings "-register-all".

(* ================================================================== *)
(** ** JavaScript values, as far as the server looks at them *)
(* ================================================================== *)

Module JS.

(** A JS number: NaN or a finite value.  Every finite double is a
    rational, so finite numbers are carried as [Q]. *)
Inductive number :=
| NaN
| Num (q : Q).

(** The prototype of an object decides how it is turned into text:
    a plain object prints as [[object Object]], an [Error] instance as
    [name: message]. *)
Inductive proto :=
| PObject
| PError (name : string).

Inductive value :=
| VUndefined
| VNull
| VBool (b : bool)
| VNum (n : number)
| VStr (s : string)
| VArr (items : list value)
| VObj (p : proto) (fields : list (string * value)).

(** Outcome of an expression that may raise. *)
Inductive exc (A : Type) :=
| Ok (a : A)
| Throw (e : value).
Arguments Ok {A} a.
Arguments Throw {A} e.

Definition exc_bind {A B} (m : exc A) (f : A -> exc B) : exc B :=
  match m with
  | Ok a => f a
  | Throw e => Throw e
  end.

Fixpoint exc_mapM {A B} (f : A -> exc B) (l : list A) : exc (list B) :=
  match l with
  | [] => Ok []
  | x :: r =>
      exc_bind (f x) (fun y =>
      exc_bind (exc_mapM f r) (fun ys => Ok (y :: ys)))
  end.

(** [new Error(msg)] and the TypeError V8 raises on [null.x]. *)
Definition newError (msg : string) : value :=
  VObj (PError "Error") [("message", VStr msg)].

Definition TypeError (msg : string) : value :=
  VObj (PError "TypeError") [("message", VStr msg)].

(** A plain object literal. *)
Definition obj (fields : list (string * value)) : value := VObj PObject fields.

Fixpoint lookup (k : string) (fs : list (string * value)) : value :=
  match fs with
  | [] => VUndefined
  | (k', v) :: r => if String.eqb k k' then v else lookup k r
  end.

Definition has_key (k : string) (fs : list (string * value)) : bool :=
  existsb (String.eqb k) (map fst fs).

Definition nullish (v : value) : bool :=
  match v with
  | VUndefined | VNull => true
  | _ => false
  end.

(** [v.k]: raises on [undefined] and [null]; a primitive or an array has
    none of the properties this program reads. *)
Definition get (v : value) (k : string) : exc value :=
  match v with
  | VUndefined =>
      Throw (TypeError ("Cannot read properties of undefined (reading '" ++ k ++ "')"))
  | VNull =>
      Throw (TypeError ("Cannot read properties of null (reading '" ++ k ++ "')"))
  | VObj _ fs => Ok (lookup k fs)
  | _ => Ok VUndefined
  end.

(** [v?.k] *)
Definition get_opt (v : value) (k : string) : exc value :=
  if nullish v then Ok VUndefined else get v k.

(** ToBoolean *)
Definition truthy (v : value) : bool :=
  match v with
  | VUndefined | VNull => false
  | VBool b => b
  | VNum NaN => false
  | VNum (Num q) => negb (Qeq_bool q 0)
  | VStr s => negb (String.eqb s "")
  | VArr _ | VObj _ _ => true
  end.

(** [a || b] *)
Definition js_or (a b : value) : value := if truthy a then a else b.

Definition isArray (v : value) : bool :=
  match v with
  | VArr _ => true
  | _ => false
  end.

(** [v === "s"] and [v === n] for a string or numeric literal. *)
Definition eq_str (v : value) (s : string) : bool :=
  match v with
  | VStr s' => String.eqb s' s
  | _ => false
  end.

Definition eq_num (v : value) (n : Z) : bool :=
  match v with
  | VNum (Num q) => Qeq_bool q (inject_Z n)
  | _ => false
  end.

(** ToString, as a template literal applies it.  The text of a finite
    number is the runtime's business ([numstr]). *)
Section ToString.
Variable numstr : Q -> string.

Fixpoint toString (v : value) : string :=
  match v with
  | VUndefined => "undefined"
  | VNull => "null"
  | VBool true => "true"
  | VBool false => "false"
  | VNum NaN => "NaN"
  | VNum (Num q) => numstr q
  | VStr s => s
  | VArr l =>
      (fix join (l : list value) : string :=
         match l with
         | [] => ""
         | x :: r =>
             (if nullish x then "" else toString x)
             ++ match r with [] => "" | _ => "," ++ join r end
         end) l
  | VObj PObject _ => "[object Object]"
  | VObj (PError name) fs =>
      let msg :=
        (fix message (fs : list (string * value)) : string :=
           match fs with
           | [] => ""
           | (k, m) :: r =>
               if String.eqb "message" k
               then match m with VUndefined => "" | _ => toString m end
               else message r
           end) fs in
      if String.eqb name "" then msg
      else if String.eqb msg "" then name
      else name ++ ": " ++ msg
  end.

(** [arr.join(sep)] *)
Fixpoint join (sep : string) (l : list value) : string :=
  match l with
  | [] => ""
  | x :: r =>
      (if nullish x then "" else toString x)
      ++ match r with [] => "" | _ => sep ++ join sep r end
  end.
End ToString.

End JS.
Import JS.

Notation "x <- m ;; k" := (exc_bind m (fun x => k))
  (at level 61, m at next level, right associativity).

(* ================================================================== *)
(** ** index.ts: the result extractors *)
(* ================================================================== *)

(** [data.images.map((img) => img.url || img).filter(Boolean)] *)
Definition mapImages (images : list value) : exc (list value) :=
  mapped <- exc_mapM (fun img => u <- get img "url";; Ok (js_or u img)) images;;
  Ok (filter truthy mapped).

Definition extractImageUrls (data : value) : exc (list value) :=
  images <- get data "images";;
  if truthy images && isArray images then
    match images with
    | VArr l => mapImages l
    | _ => Ok []
    end
  else
  image <- get data "image";;
  u1 <- get_opt image "url";;
  if truthy u1 then Ok [u1] else
  u2 <- get data "image_url";;
  if truthy u2 then Ok [u2] else
  output <- get data "output";;
  u3 <- get_opt output "url";;
  if truthy u3 then Ok [u3] else
  u4 <- get data "url";;
  if truthy u4 then Ok [u4] else
  Ok [].

Definition extractVideoUrl (data : value) : exc value :=
  video <- get data "video";;
  u1 <- get_opt video "url";;
  if truthy u1 then Ok u1 else
  u2 <- get data "video_url";;
  if truthy u2 then Ok u2 else
  output <- get data "output";;
  u3 <- get_opt output "url";;
  if truthy u3 then Ok u3 else
  u4 <- get data "url";;
  if truthy u4 then Ok u4 else
  Ok VNull.

Definition extractAudioUrl (data : value) : exc value :=
  audio <- get data "audio";;
  u1 <- get_opt audio "url";;
  if truthy u1 then Ok u1 else
  u2 <- get data "audio_url";;
  if truthy u2 then Ok u2 else
  audio_file <- get data "audio_file";;
  u3 <- get_opt audio_file "url";;
  if truthy u3 then Ok u3 else
  output <- get data "output";;
  u4 <- get_opt output "url";;
  if truthy u4 then Ok u4 else
  u5 <- get data "url";;
  if truthy u5 then Ok u5 else
  Ok VNull.

Definition extract3DUrl (data : value) : exc value :=
  model <- get data "model";;
  u1 <- get_opt model "url";;
  if truthy u1 then Ok u1 else
  u2 <- get data "model_url";;
  if truthy u2 then Ok u2 else
  mesh <- get data "mesh";;
  u3 <- get_opt mesh "url";;
  if truthy u3 then Ok u3 else
  output <- get data "output";;
  u4 <- get_opt output "url";;
  if truthy u4 then Ok u4 else
  glb <- get data "glb";;
  u5 <- get_opt glb "url";;
  if truthy u5 then Ok u5 else
  u6 <- get data "url";;
  if truthy u6 then Ok u6 else
  Ok VNull.


(* ================================================================== *)
(** ** config.ts *)
(* ================================================================== *)

Record Config := {
  apiKey : string;
  timeout : number;
  outputDir : string
}.

(** The three variables [loadConfig] reads from [process.env]. *)
Record ProcessEnv := {
  FAL_KEY : option string;
  FAL_OUTPUT_DIR : option string;
  FAL_TIMEOUT : option string
}.

(** [parseInt(s, 10)]: leading white space is skipped, one sign is
    taken, then the longest run of decimal digits; no digit gives NaN.
    Characters are code units below 256 (tab, LF, VT, FF, CR, space and
    NBSP are the white space among them).  The result is the integer the
    digits denote; the runtime rounds it to the nearest double, which
    keeps its sign. *)
Definition isWhiteSpace (c : ascii) : bool :=
  existsb (Nat.eqb (nat_of_ascii c)) [9; 10; 11; 12; 13; 32; 160]%nat.

Fixpoint trimStart (s : string) : string :=
  match s with
  | String c r => if isWhiteSpace c then trimStart r else s
  | EmptyString => EmptyString
  end.

Definition digit (c : ascii) : option Z :=
  let n := nat_of_ascii c in
  if ((48 <=? n) && (n <=? 57))%nat then Some (Z.of_nat n - 48)%Z else None.

Fixpoint digits (acc : option Z) (s : string) : option Z :=
  match s with
  | String c r =>
      match digit c with
      | Some d =>
          digits (Some (10 * match acc with Some a => a | None => 0 end + d)%Z) r
      | None => acc
      end
  | EmptyString => acc
  end.

Definition parseInt (s : string) : number :=
  let s := trimStart s in
  let '(sign, s) :=
    match s with
    | String "-" r => ((-1)%Z, r)
    | String "+" r => (1%Z, r)
    | _ => (1%Z, s)
    end in
  match digits None s with
  | Some z => Num (inject_Z (sign * z))
  | None => NaN
  end.

(** [n <= 0]: false on NaN. *)
Definition le0 (n : number) : bool :=
  match n with
  | NaN => false
  | Num q => Qle_bool q 0
  end.

(** A present, non-empty string is the only truthy value a variable of
    the environment can have. *)
Definition env_truthy (v : option string) : option string :=
  match v with
  | Some s => if String.eqb s "" then None else Some s
  | None => None
  end.

Definition loadConfig (env : ProcessEnv) : exc Config :=
  match env_truthy (FAL_KEY env) with
  | None =>
      Throw (newError
        "fal.ai API key not configured. Please set the FAL_KEY environment variable.")
  | Some apiKey =>
      let outputDir :=
        match env_truthy (FAL_OUTPUT_DIR env) with
        | Some d => d
        | None => "./generated-media"
        end in
      let timeout :=
        match env_truthy (FAL_TIMEOUT env) with
        | Some timeoutStr => parseInt timeoutStr
        | None => Num 120000
        end in
      if le0 timeout then Throw (newError "FAL_TIMEOUT must be a positive number")
      else Ok {| apiKey := apiKey; timeout := timeout; outputDir := outputDir |}
  end.

(** The model identifiers, [MODELS]. *)
Module MODELS.
Definition TEXT_TO_IMAGE := "fal-ai/flux-pro/kontext/max/text-to-image".
Definition EDIT_IMAGE := "fal-ai/flux-pro/kontext/max".
Definition IMAGE_TO_IMAGE := "fal-ai/flux-general".
Definition INPAINT := "fal-ai/flux-general/inpainting".
Definition STYLE_TRANSFER := "fal-ai/flux/schnell/redux".
Definition TEXT_TO_VIDEO := "fal-ai/kling-video/v3/pro/text-to-video".
Definition IMAGE_TO_VIDEO := "fal-ai/kling-video/v3/pro/image-to-video".
Definition LIPSYNC := "fal-ai/sync-lipsync/v2".
Definition AVATAR_VIDEO := "fal-ai/bytedance/omnihuman/v1.5".
Definition UPSCALE_IMAGE := "fal-ai/topaz/upscale/image".
Definition UPSCALE_VIDEO := "fal-ai/topaz/upscale/video".
Definition REMOVE_BACKGROUND := "fal-ai/bria/background/remove".
Definition REMOVE_VIDEO_BACKGROUND := "fal-ai/bria/video/background-removal".
Definition FACE_SWAP_IMAGE := "fal-ai/face-swap".
Definition FACE_SWAP_VIDEO := "fal-ai/face-swap/video".
Definition SEGMENT_IMAGE := "fal-ai/sam3".
Definition ESTIMATE_DEPTH := "fal-ai/marigold-depth-estimation".
Definition GENERATE_MUSIC := "fal-ai/beatoven/music-generation".
Definition TEXT_TO_SPEECH := "fal-ai/minimax-speech/text-to-speech-02-hd".
Definition SOUND_EFFECT := "fal-ai/stable-audio".
Definition IMAGE_TO_3D := "fal-ai/tripo3d/v2".
Definition RETEXTURE_3D := "fal-ai/meshy/retexture".
End MODELS.

(* ================================================================== *)
(** ** zod: the part of the library the handler uses *)
(* ================================================================== *)

Module Zod.

Inductive check :=
| c_int
| c_min (q : Q)
| c_max (q : Q).

(** [z.string()...], [z.number()...] with their checks in the order
    they were chained, and [.optional()]. *)
Inductive schema :=
| string_ (checks : list check)
| number_ (checks : list check)
| optional (inner : schema).

Inductive issue :=
| invalid_type (path : list string) (expected received : string)
| too_small (path : list string)
| too_big (path : list string).

Definition parsedType (v : value) : string :=
  match v with
  | VUndefined => "undefined"
  | VNull => "null"
  | VBool _ => "boolean"
  | VNum NaN => "nan"
  | VNum (Num _) => "number"
  | VStr _ => "string"
  | VArr _ => "array"
  | VObj _ _ => "object"
  end.

Definition isInteger (q : Q) : bool :=
  (Qnum q mod Zpos (Qden q) =? 0)%Z.

Definition Qlt_bool (a b : Q) : bool := negb (Qle_bool b a).

Definition run_check (path : list string) (size : Q) (c : check) : list issue :=
  match c with
  | c_int => if isInteger size then [] else [invalid_type path "integer" "float"]
  | c_min q => if Qlt_bool size q then [too_small path] else []
  | c_max q => if Qlt_bool q size then [too_big path] else []
  end.

Fixpoint validate (s : schema) (path : list string) (v : value) : list issue :=
  match s with
  | optional inner =>
      match v with
      | VUndefined => []
      | _ => validate inner path v
      end
  | string_ checks =>
      match v with
      | VStr str =>
          flat_map (run_check path (inject_Z (Z.of_nat (String.length str)))) checks
      | _ => [invalid_type path "string" (parsedType v)]
      end
  | number_ checks =>
      match v with
      | VNum (Num q) => flat_map (run_check path q) checks
      | _ => [invalid_type path "number" (parsedType v)]
      end
  end.

Definition shape := list (string * schema).

(** [z.object(shape).parse(args)]: the issues of all keys of the shape
    are collected; unknown keys are stripped; a key of the shape is set
    on the output when it is a key of the input.  The result is the list
    of own properties of the parsed object, or the issues of the
    [ZodError]. *)
Definition safeParse (sh : shape) (args : value)
  : list issue + list (string * value) :=
  match args with
  | VObj _ fs =>
      match flat_map (fun kv => validate (snd kv) [fst kv] (lookup (fst kv) fs)) sh with
      | [] =>
          inr (flat_map (fun kv =>
                 if has_key (fst kv) fs then [(fst kv, lookup (fst kv) fs)] else []) sh)
      | issues => inl issues
      end
  | _ => inl [invalid_type [] "object" (parsedType args)]
  end.

End Zod.

(* ================================================================== *)
(** ** The world around one invocation *)
(* ================================================================== *)

Definition bytes := list Byte.byte.

(** How the race between [fal.subscribe] and the timer ends. *)
Inductive settled :=
| Resolves (result : value)
| Rejects (err : value)
| TimerFirst.

Record Response := {
  ok : bool;
  statusText : string;
  arrayBuffer : exc bytes
}.

Inductive fetched :=
| Fulfilled (response : Response)
| Failed (err : value).

(** The runtime (text of numbers, JSON, ZodError messages, [path]) and
    the environment (upstream service, clock, file system, network) are
    not part of the repository; an invocation is run against a [Host]
    that answers for them. *)
Record Host := {
  Number_toString : Q -> string;
  JSON_stringify : value -> string;
  ZodError_message : list Zod.issue -> string;
  path_dirname : string -> string;
  path_resolve : string -> string -> string;
  Date_toISOString : string;
  fal_subscribe : string -> value -> number -> settled;
  fs_existsSync : string -> bool;
  fs_mkdirSync : string -> option value;
  fetch : value -> fetched;
  fs_writeFileSync : string -> bytes -> option value
}.

(** What an invocation does to the outside: an upstream call issued
    (with the budget of its timer), a directory created, a download
    started, a file written. *)
Inductive event :=
| ESubscribe (model : string) (input : value) (budget : number)
| EMkdir (dir : string)
| EFetch (url : value)
| EWriteFile (path : string) (data : bytes).

(** An effectful computation: the events it caused, and its outcome. *)
Definition M (A : Type) : Type := list event * exc A.

Definition ret {A} (a : A) : M A := ([], Ok a).
Definition throw {A} (e : value) : M A := ([], Throw e).
Definition lift {A} (m : exc A) : M A := ([], m).
Definition emit (e : event) : M unit := ([e], Ok tt).

Definition bind {A B} (m : M A) (f : A -> M B) : M B :=
  match m with
  | (tr, Ok a) => let '(tr', r) := f a in ((tr ++ tr')%list, r)
  | (tr, Throw e) => (tr, Throw e)
  end.

(** [try { body } catch (error) { handler(error) }] *)
Definition try_catch {A} (body : M A) (handler : value -> M A) : M A :=
  match body with
  | (tr, Ok a) => (tr, Ok a)
  | (tr, Throw e) => let '(tr', r) := handler e in ((tr ++ tr')%list, r)
  end.

Notation "x <~ m ;; k" := (bind m (fun x => k))
  (at level 61, m at next level, right associativity).

Definition String_ (h : Host) (v : value) : string := toString (Number_toString h) v.

(** The [ZodError] that [parse] throws; its message is the JSON text of
    the issues. *)
Definition ZodError (h : Host) (issues : list Zod.issue) : value :=
  VObj (PError "ZodError") [("message", VStr (ZodError_message h issues))].

(** [schema.parse(args)] *)
Definition parse (h : Host) (sh : Zod.shape) (args : value) : M (list (string * value)) :=
  match Zod.safeParse sh args with
  | inr input => ret input
  | inl issues => throw (ZodError h issues)
  end.

(* ================================================================== *)
(** ** fal-client.ts *)
(* ================================================================== *)

Record FalClient := { this_timeout : number }.

Definition createFalClient (config : Config) : FalClient :=
  {| this_timeout := timeout config |}.

(** [this.timeout * 5] *)
Definition times5 (n : number) : number :=
  match n with
  | NaN => NaN
  | Num q => Num (q * 5)
  end.

(** [Promise.race([fal.subscribe(model, {input, logs: false}),
                   new Promise((_, reject) => setTimeout(..., budget))])] *)
Definition race (h : Host) (model : string) (input : value) (budget : number) : M value :=
  _ <~ emit (ESubscribe model input budget);;
  match fal_subscribe h model input budget with
  | Resolves result => ret result
  | Rejects err => throw err
  | TimerFirst => throw (newError "Request timeout")
  end.

Definition run (h : Host) (this : FalClient) (model : string) (input : value) : M value :=
  race h model input (this_timeout this).

Definition runLong (h : Host) (this : FalClient) (model : string) (input : value) : M value :=
  race h model input (times5 (this_timeout this)).

Definition generateImage h this input := run h this MODELS.TEXT_TO_IMAGE input.
Definition editImage h this input := run h this MODELS.EDIT_IMAGE input.
Definition imageToImage h this input := run h this MODELS.IMAGE_TO_IMAGE input.
Definition inpaint h this input := run h this MODELS.INPAINT input.
Definition styleTransfer h this input := run h this MODELS.STYLE_TRANSFER input.
Definition textToVideo h this input := runLong h this MODELS.TEXT_TO_VIDEO input.
Definition imageToVideo h this input := runLong h this MODELS.IMAGE_TO_VIDEO input.
Definition lipsync h this input := runLong h this MODELS.LIPSYNC input.
Definition avatarVideo h this input := runLong h this MODELS.AVATAR_VIDEO input.
Definition upscaleImage h this input := run h this MODELS.UPSCALE_IMAGE input.
Definition upscaleVideo h this input := runLong h this MODELS.UPSCALE_VIDEO input.
Definition removeBackground h this input := run h this MODELS.REMOVE_BACKGROUND input.
Definition removeVideoBackground h this input := runLong h this MODELS.REMOVE_VIDEO_BACKGROUND input.
Definition faceSwapImage h this input := run h this MODELS.FACE_SWAP_IMAGE input.
Definition faceSwapVideo h this input := runLong h this MODELS.FACE_SWAP_VIDEO input.
Definition segmentImage h this input := run h this MODELS.SEGMENT_IMAGE input.
Definition estimateDepth h this input := run h this MODELS.ESTIMATE_DEPTH input.
Definition generateMusic h this input := runLong h this MODELS.GENERATE_MUSIC input.
Definition textToSpeech h this input := run h this MODELS.TEXT_TO_SPEECH input.
Definition generateSoundEffect h this input := run h this MODELS.SOUND_EFFECT input.
Definition imageTo3D h this input := runLong h this MODELS.IMAGE_TO_3D input.
Definition retexture3D h this input := runLong h this MODELS.RETEXTURE_3D input.

Definition msg_timeout : string :=
  "fal.ai request timed out. This model may take longer — try again or increase FAL_TIMEOUT.".
Definition msg_api_key : string :=
  "Invalid fal.ai API key. Please check your FAL_KEY environment variable.".
Definition msg_rate_limit : string :=
  "fal.ai rate limit exceeded. Please wait a moment and try again.".

Definition handleError (h : Host) (error : value) : exc value :=
  message <- get error "message";;
  if eq_str message "Request timeout" then Ok (newError msg_timeout) else
  status <- get error "status";;
  if eq_num status 401 || eq_num status 403 then Ok (newError msg_api_key) else
  if eq_num status 429 then Ok (newError msg_rate_limit) else
  if eq_num status 422 then
    body <- get error "body";;
    detail <- get_opt body "detail";;
    Ok (newError ("fal.ai validation error: " ++ String_ h (js_or detail message)))
  else
  code <- get error "code";;
  if eq_str code "ENOTFOUND" || eq_str code "ECONNREFUSED" then
    Ok (newError ("Failed to connect to fal.ai API: " ++ String_ h message))
  else
  Ok (newError ("fal.ai API error: " ++ String_ h (js_or message error))).

(* ================================================================== *)
(** ** index.ts: helpers of the server *)
(* ================================================================== *)

Definition mkdirSync (h : Host) (dir : string) : M unit :=
  match fs_mkdirSync h dir with
  | None => emit (EMkdir dir)
  | Some err => throw err
  end.

Definition writeFileSync (h : Host) (path : string) (data : bytes) : M unit :=
  match fs_writeFileSync h path data with
  | None => emit (EWriteFile path data)
  | Some err => throw err
  end.

Definition await_fetch (h : Host) (url : value) : M Response :=
  _ <~ emit (EFetch url);;
  match fetch h url with
  | Fulfilled response => ret response
  | Failed err => throw err
  end.

Definition downloadFile (h : Host) (url : value) (savePath : string) : M string :=
  let dir := path_dirname h savePath in
  _ <~ (if negb (fs_existsSync h dir) then mkdirSync h dir else ret tt);;
  response <~ await_fetch h url;;
  if negb (ok response) then
    throw (newError ("Failed to download: " ++ statusText response))
  else
  buffer <~ lift (arrayBuffer response);;
  _ <~ writeFileSync h savePath buffer;;
  ret savePath.

(** [s.replace(/[:.]/g, '-')] *)
Fixpoint replace_colon_dot (s : string) : string :=
  match s with
  | String c r =>
      String (if Ascii.eqb c ":" || Ascii.eqb c "." then "-"%char else c)
             (replace_colon_dot r)
  | EmptyString => EmptyString
  end.

Definition getAutoSavePath (h : Host) (config : Config) (prefix ext : string) : string :=
  let timestamp := replace_colon_dot (Date_toISOString h) in
  let filename := prefix ++ "-" ++ timestamp ++ "." ++ ext in
  path_resolve h (outputDir config) filename.

(** [const { save_path, ...apiInput } = input] *)
Definition rest_save_path (input : list (string * value)) : value * value :=
  (lookup "save_path" input,
   obj (filter (fun kv => negb (String.eqb (fst kv) "save_path")) input)).

(** [v || d] where [v] is a validated optional string: a string or
    [undefined]. *)
Definition or_string (v : value) (d : string) : string :=
  match js_or v (VStr d) with
  | VStr s => s
  | _ => d
  end.

Record CallToolResult := {
  text : string;
  isError : bool
}.

Definition success (t : string) : M CallToolResult :=
  ret {| text := t; isError := false |}.

Definition failure (t : string) : M CallToolResult :=
  ret {| text := t; isError := true |}.

Definition nl : string := String (ascii_of_nat 10) EmptyString.

(* ================================================================== *)
(** ** index.ts: the tool catalogue (tools/list) *)
(* ================================================================== *)

Inductive tool :=
| generate_image | edit_image | image_to_image | inpaint_ | style_transfer
| text_to_video | image_to_video | lipsync_ | avatar_video
| upscale_image | upscale_video | remove_background | remove_video_background
| face_swap_image | face_swap_video | segment_image | estimate_depth
| generate_music | text_to_speech | generate_sound_effect
| image_to_3d | retexture_3d.

Definition all_tools : list tool :=
  [generate_image; edit_image; image_to_image; inpaint_; style_transfer;
   text_to_video; image_to_video; lipsync_; avatar_video;
   upscale_image; upscale_video; remove_background; remove_video_background;
   face_swap_image; face_swap_video; segment_image; estimate_depth;
   generate_music; text_to_speech; generate_sound_effect;
   image_to_3d; retexture_3d].

Definition name_of (t : tool) : string :=
  match t with
  | generate_image => "generate_image"
  | edit_image => "edit_image"
  | image_to_image => "image_to_image"
  | inpaint_ => "inpaint"
  | style_transfer => "style_transfer"
  | text_to_video => "text_to_video"
  | image_to_video => "image_to_video"
  | lipsync_ => "lipsync"
  | avatar_video => "avatar_video"
  | upscale_image => "upscale_image"
  | upscale_video => "upscale_video"
  | remove_background => "remove_background"
  | remove_video_background => "remove_video_background"
  | face_swap_image => "face_swap_image"
  | face_swap_video => "face_swap_video"
  | segment_image => "segment_image"
  | estimate_depth => "estimate_depth"
  | generate_music => "generate_music"
  | text_to_speech => "text_to_speech"
  | generate_sound_effect => "generate_sound_effect"
  | image_to_3d => "image_to_3d"
  | retexture_3d => "retexture_3d"
  end.

(** The [required] list of each tool's [inputSchema]. *)
Definition inputSchema_required (t : tool) : list string :=
  match t with
  | generate_image => ["prompt"]
  | edit_image => ["prompt"; "image_url"]
  | image_to_image => ["prompt"; "image_url"]
  | inpaint_ => ["prompt"; "image_url"; "mask_url"]
  | style_transfer => ["image_url"]
  | text_to_video => ["prompt"]
  | image_to_video => ["prompt"; "image_url"]
  | lipsync_ => ["video_url"; "audio_url"]
  | avatar_video => ["image_url"; "audio_url"]
  | upscale_image => ["image_url"]
  | upscale_video => ["video_url"]
  | remove_background => ["image_url"]
  | remove_video_background => ["video_url"]
  | face_swap_image => ["base_image_url"; "swap_image_url"]
  | face_swap_video => ["base_video_url"; "swap_image_url"]
  | segment_image => ["image_url"]
  | estimate_depth => ["image_url"]
  | generate_music => ["prompt"]
  | text_to_speech => ["text"]
  | generate_sound_effect => ["prompt"]
  | image_to_3d => ["image_url"]
  | retexture_3d => ["model_url"; "prompt"]
  end.

(* ================================================================== *)
(** ** index.ts: the tools/call handler *)
(* ================================================================== *)

Import Zod.

(** The [schema] constant of each case of the switch. *)
Definition schema_of (t : tool) : shape :=
  match t with
  | generate_image =>
      [("prompt", string_ [c_min 1]);
       ("image_size", optional (string_ []));
       ("num_images", optional (number_ [c_int; c_min 1; c_max 4]));
       ("seed", optional (number_ [c_int]));
       ("output_format", optional (string_ []));
       ("save_path", optional (string_ []))]
  | edit_image =>
      [("prompt", string_ [c_min 1]);
       ("image_url", string_ [c_min 1]);
       ("image_size", optional (string_ []));
       ("seed", optional (number_ [c_int]));
       ("save_path", optional (string_ []))]
  | image_to_image =>
      [("prompt", string_ [c_min 1]);
       ("image_url", string_ [c_min 1]);
       ("strength", optional (number_ [c_min 0; c_max 1]));
       ("image_size", optional (string_ []));
       ("num_inference_steps", optional (number_ [c_int; c_min 1; c_max 50]));
       ("seed", optional (number_ [c_int]));
       ("num_images", optional (number_ [c_int; c_min 1; c_max 4]));
       ("output_format", optional (string_ []));
       ("save_path", optional (string_ []))]
  | inpaint_ =>
      [("prompt", string_ [c_min 1]);
       ("image_url", string_ [c_min 1]);
       ("mask_url", string_ [c_min 1]);
       ("image_size", optional (string_ []));
       ("num_inference_steps", optional (number_ [c_int; c_min 1; c_max 50]));
       ("seed", optional (number_ [c_int]));
       ("output_format", optional (string_ []));
       ("save_path", optional (string_ []))]
  | style_transfer =>
      [("image_url", string_ [c_min 1]);
       ("image_size", optional (string_ []));
       ("num_inference_steps", optional (number_ [c_int; c_min 1; c_max 4]));
       ("seed", optional (number_ [c_int]));
       ("num_images", optional (number_ [c_int; c_min 1; c_max 4]));
       ("save_path", optional (string_ []))]
  | text_to_video =>
      [("prompt", string_ [c_min 1]);
       ("duration", optional (string_ []));
       ("aspect_ratio", optional (string_ []));
       ("negative_prompt", optional (string_ []));
       ("save_path", optional (string_ []))]
  | image_to_video =>
      [("prompt", string_ [c_min 1]);
       ("image_url", string_ [c_min 1]);
       ("duration", optional (string_ []));
       ("aspect_ratio", optional (string_ []));
       ("save_path", optional (string_ []))]
  | lipsync_ =>
      [("video_url", string_ [c_min 1]);
       ("audio_url", string_ [c_min 1]);
       ("save_path", optional (string_ []))]
  | avatar_video =>
      [("image_url", string_ [c_min 1]);
       ("audio_url", string_ [c_min 1]);
       ("save_path", optional (string_ []))]
  | upscale_image =>
      [("image_url", string_ [c_min 1]);
       ("scale", optional (number_ [c_min 1; c_max 8]));
       ("save_path", optional (string_ []))]
  | upscale_video =>
      [("video_url", string_ [c_min 1]);
       ("scale", optional (number_ [c_min 1; c_max 4]));
       ("save_path", optional (string_ []))]
  | remove_background =>
      [("image_url", string_ [c_min 1]);
       ("save_path", optional (string_ []))]
  | remove_video_background =>
      [("video_url", string_ [c_min 1]);
       ("save_path", optional (string_ []))]
  | face_swap_image =>
      [("base_image_url", string_ [c_min 1]);
       ("swap_image_url", string_ [c_min 1]);
       ("save_path", optional (string_ []))]
  | face_swap_video =>
      [("base_video_url", string_ [c_min 1]);
       ("swap_image_url", string_ [c_min 1]);
       ("save_path", optional (string_ []))]
  | segment_image =>
      [("image_url", string_ [c_min 1]);
       ("prompt", optional (string_ []));
       ("save_path", optional (string_ []))]
  | estimate_depth =>
      [("image_url", string_ [c_min 1]);
       ("save_path", optional (string_ []))]
  | generate_music =>
      [("prompt", string_ [c_min 1]);
       ("duration", optional (number_ []));
       ("save_path", optional (string_ []))]
  | text_to_speech =>
      [("text", string_ [c_min 1]);
       ("voice_id", optional (string_ []));
       ("speed", optional (number_ [c_min 0.5; c_max 2.0]));
       ("save_path", optional (string_ []))]
  | generate_sound_effect =>
      [("prompt", string_ [c_min 1]);
       ("duration_seconds", optional (number_ []));
       ("save_path", optional (string_ []))]
  | image_to_3d =>
      [("image_url", string_ [c_min 1]);
       ("save_path", optional (string_ []))]
  | retexture_3d =>
      [("model_url", string_ [c_min 1]);
       ("prompt", string_ [c_min 1]);
       ("reference_image_url", optional (string_ []));
       ("save_path", optional (string_ []))]
  end.

(** The client method each case awaits. *)
Definition client_call (h : Host) (client : FalClient) (t : tool) (apiInput : value)
  : M value :=
  match t with
  | generate_image => generateImage h client apiInput
  | edit_image => editImage h client apiInput
  | image_to_image => imageToImage h client apiInput
  | inpaint_ => inpaint h client apiInput
  | style_transfer => styleTransfer h client apiInput
  | text_to_video => textToVideo h client apiInput
  | image_to_video => imageToVideo h client apiInput
  | lipsync_ => lipsync h client apiInput
  | avatar_video => avatarVideo h client apiInput
  | upscale_image => upscaleImage h client apiInput
  | upscale_video => upscaleVideo h client apiInput
  | remove_background => removeBackground h client apiInput
  | remove_video_background => removeVideoBackground h client apiInput
  | face_swap_image => faceSwapImage h client apiInput
  | face_swap_video => faceSwapVideo h client apiInput
  | segment_image => segmentImage h client apiInput
  | estimate_depth => estimateDepth h client apiInput
  | generate_music => generateMusic h client apiInput
  | text_to_speech => textToSpeech h client apiInput
  | generate_sound_effect => generateSoundEffect h client apiInput
  | image_to_3d => imageTo3D h client apiInput
  | retexture_3d => retexture3D h client apiInput
  end.

(** The tail shared by the cases that extract a list of image URLs:
    [if (urls.length === 0) return empty;
     const savePath = save_path || getAutoSavePath(prefix, ext);
     await downloadFile(urls[0], savePath);
     return { content: [{ type: 'text', text: `${saved}${savePath}` }] }] *)
Definition save_first (h : Host) (config : Config) (urls : list value) (save_path : value)
    (empty : M CallToolResult) (prefix ext saved : string) : M CallToolResult :=
  match urls with
  | [] => empty
  | url0 :: _ =>
      let savePath := or_string save_path (getAutoSavePath h config prefix ext) in
      _ <~ downloadFile h url0 savePath;;
      success (saved ++ savePath)
  end.

(** The same tail for the cases that extract one URL: [if (!url) return absent; ...] *)
Definition save_url (h : Host) (config : Config) (url : value) (save_path : value)
    (absent : M CallToolResult) (prefix ext saved : string) : M CallToolResult :=
  if negb (truthy url) then absent
  else
    let savePath := or_string save_path (getAutoSavePath h config prefix ext) in
    _ <~ downloadFile h url savePath;;
    success (saved ++ savePath).

(** What a case of [switch (name)] does with [result.data], once its
    first three statements (see [handle_case]) have run. *)
Definition respond (h : Host) (config : Config) (t : tool)
    (input : list (string * value)) (save_path : value) (data : value)
  : M CallToolResult :=
  let images (k : list value -> M CallToolResult) := urls <~ lift (extractImageUrls data);; k urls in
  let video (k : value -> M CallToolResult) := url <~ lift (extractVideoUrl data);; k url in
  let audio (k : value -> M CallToolResult) := url <~ lift (extractAudioUrl data);; k url in
  let model3d (k : value -> M CallToolResult) := url <~ lift (extract3DUrl data);; k url in
  let raw (title : string) := success (title ++ nl ++ JSON_stringify h data) in
  match t with
  | generate_image =>
      images (fun urls =>
      match urls with
      | [] => failure "No image was generated. Try rephrasing your prompt."
      | url0 :: more =>
          let savePath :=
            or_string save_path
              (getAutoSavePath h config "generated"
                 (or_string (lookup "output_format" input) "png")) in
          _ <~ downloadFile h url0 savePath;;
          seed <~ lift (get data "seed");;
          success
            ("Image generated and saved to: " ++ savePath
             ++ match more with
                | [] => ""
                | _ => nl ++ "Additional images: " ++ join (Number_toString h) ", " more
                end
             ++ match seed with
                | VUndefined => ""
                | _ => nl ++ "Seed: " ++ String_ h seed
                end)
      end)
  | edit_image =>
      images (fun urls =>
      save_first h config urls save_path
        (failure "No edited image was generated. Try rephrasing your prompt.")
        "edited" "png" "Edited image saved to: ")
  | image_to_image =>
      images (fun urls =>
      save_first h config urls save_path
        (failure "No image was generated. Try rephrasing your prompt.")
        "img2img" (or_string (lookup "output_format" input) "png")
        "Transformed image saved to: ")
  | inpaint_ =>
      images (fun urls =>
      save_first h config urls save_path
        (failure "Inpainting failed. Try a different prompt or mask.")
        "inpainted" (or_string (lookup "output_format" input) "png")
        "Inpainted image saved to: ")
  | style_transfer =>
      images (fun urls =>
      save_first h config urls save_path
        (failure "Style transfer failed. Try a different reference image.")
        "style-transfer" "png" "Style transfer result saved to: ")
  | text_to_video =>
      video (fun url =>
      save_url h config url save_path
        (failure "No video was generated. Try rephrasing your prompt.")
        "text2video" "mp4" "Video generated and saved to: ")
  | image_to_video =>
      video (fun url =>
      save_url h config url save_path
        (failure "No video was generated. Try a different image or prompt.")
        "img2video" "mp4" "Video generated and saved to: ")
  | lipsync_ =>
      video (fun url =>
      save_url h config url save_path
        (failure "Lipsync failed. Check that the video contains a visible face and the audio is clear.")
        "lipsync" "mp4" "Lipsync video saved to: ")
  | avatar_video =>
      video (fun url =>
      save_url h config url save_path
        (failure "Avatar video generation failed. Ensure the image is a clear portrait/headshot.")
        "avatar" "mp4" "Avatar video saved to: ")
  | upscale_image =>
      images (fun urls =>
      save_first h config urls save_path
        (failure "Upscaling failed.")
        "upscaled" "png" "Upscaled image saved to: ")
  | upscale_video =>
      video (fun url =>
      save_url h config url save_path
        (failure "Video upscaling failed.")
        "upscaled" "mp4" "Upscaled video saved to: ")
  | remove_background =>
      images (fun urls =>
      save_first h config urls save_path
        (failure "Background removal failed.")
        "no-bg" "png" "Background removed. Saved to: ")
  | remove_video_background =>
      video (fun url =>
      save_url h config url save_path
        (failure "Video background removal failed.")
        "no-bg-video" "mp4" "Video background removed. Saved to: ")
  | face_swap_image =>
      images (fun urls =>
      save_first h config urls save_path
        (failure "Face swap failed. Ensure both images contain clear, visible faces.")
        "face-swap" "png" "Face swap result saved to: ")
  | face_swap_video =>
      video (fun url =>
      save_url h config url save_path
        (failure "Video face swap failed. Ensure the video has a clear face and the swap image is a good headshot.")
        "face-swap-video" "mp4" "Face swap video saved to: ")
  | segment_image =>
      let responseText :=
        "Segmentation complete." ++ nl ++ nl ++ "Raw result:" ++ nl ++ JSON_stringify h data in
      (* Try to save mask if available *)
      images (fun urls =>
      match urls with
      | url0 :: _ =>
          if truthy save_path then
            _ <~ downloadFile h url0 (or_string save_path "");;
            success (responseText ++ nl ++ nl ++ "Mask saved to: " ++ or_string save_path "")
          else success responseText
      | [] => success responseText
      end)
  | estimate_depth =>
      images (fun urls =>
      save_first h config urls save_path
        (raw ("Depth estimation complete." ++ nl ++ nl ++ "Raw result:"))
        "depth" "png" "Depth map saved to: ")
  | generate_music =>
      audio (fun url =>
      save_url h config url save_path
        (raw "Music generation result:")
        "music" "mp3" "Music generated and saved to: ")
  | text_to_speech =>
      audio (fun url =>
      save_url h config url save_path
        (raw "TTS result:")
        "speech" "mp3" "Speech audio saved to: ")
  | generate_sound_effect =>
      audio (fun url =>
      save_url h config url save_path
        (raw "Sound effect result:")
        "sfx" "mp3" "Sound effect saved to: ")
  | image_to_3d =>
      model3d (fun url =>
      save_url h config url save_path
        (raw "3D generation result:")
        "model" "glb" "3D model saved to: ")
  | retexture_3d =>
      model3d (fun url =>
      save_url h config url save_path
        (raw "Retexture result:")
        "retextured" "glb" "Retextured 3D model saved to: ")
  end.

(** One case of [switch (name)].  Every case starts with
    [const input = schema.parse(args);
     const { save_path, ...apiInput } = input;
     const result = await client.method(apiInput);]
    and goes on with [result.data]. *)
Definition handle_case (h : Host) (config : Config) (client : FalClient)
    (t : tool) (args : value) : M CallToolResult :=
  input <~ parse h (schema_of t) args;;
  let '(save_path, apiInput) := rest_save_path input in
  result <~ client_call h client t apiInput;;
  data <~ lift (get result "data");;
  respond h config t input save_path data.

Definition tool_of_name (name : string) : option tool :=
  find (fun t => String.eqb name (name_of t)) all_tools.

(** The handler registered for [CallToolRequestSchema], on
    [request.params = { name, arguments: args }]. *)
Definition callTool (h : Host) (config : Config) (client : FalClient)
    (name : string) (args : value) : M CallToolResult :=
  try_catch
    (match tool_of_name name with
     | Some t => handle_case h config client t args
     | None => throw (newError ("Unknown tool: " ++ name))
     end)
    (fun error =>
       handled <~ lift (handleError h error);;
       message <~ lift (get handled "message");;
       failure (String_ h message)).

(* ================================================================== *)
(** ** Vocabulary of the specification *)
(* ================================================================== *)

(** [v.k] on a value that is neither [undefined] nor [null]. *)
Definition prop (v : value) (k : string) : value :=
  match v with
  | VObj _ fs => lookup k fs
  | _ => VUndefined
  end.

(** What one entry of [images] is mapped to: [img.url || img]. *)
Definition entry_value (img : value) : value := js_or (prop img "url") img.

(** An entry of the plural sequence as the specification describes it,
    with the URL it stands for: a bare string, or an object whose [url]
    attribute holds a URL. *)
Inductive image_entry : value -> string -> Prop :=
| entry_bare (s : string) : image_entry (VStr s) s
| entry_object (p : proto) (fs : list (string * value)) (u : string) :
    lookup "url" fs = VStr u -> u <> "" -> image_entry (VObj p fs) u.

Definition nonempty (s : string) : bool := negb (String.eqb s "").

(** A host for closed examples: nothing fails on the local side, and
    the race of the upstream call ends as [s]. *)
Definition host_with (s : settled) : Host := {|
  Number_toString := fun q => NilZero.string_of_int (Z.to_int (Qnum q / Zpos (Qden q)));
  JSON_stringify := fun _ => "{}";
  ZodError_message := fun _ => "[]";
  path_dirname := fun _ => ".";
  path_resolve := fun dir file => dir ++ "/" ++ file;
  Date_toISOString := "2025-01-01T00:00:00.000Z";
  fal_subscribe := fun _ _ _ => s;
  fs_existsSync := fun _ => true;
  fs_mkdirSync := fun _ => None;
  fetch := fun _ => Fulfilled {| ok := true; statusText := "OK"; arrayBuffer := Ok [] |};
  fs_writeFileSync := fun _ _ => None
|}.

(** The upstream service answers [{ data: {}, requestId: "r1" }]. *)
Definition quiet_host : Host :=
  host_with (Resolves (obj [("data", obj []); ("requestId", VStr "r1")])).

(** The conditions [handleError] tests, on an error that is neither
    [undefined] nor [null]. *)
Definition is_timeout (error : value) : Prop :=
  prop error "message" = VStr "Request timeout".

Definition has_status (error : value) (n : Z) : Prop :=
  exists q, prop error "status" = VNum (Num q) /\ (q == inject_Z n)%Q.

Definition has_code (error : value) (c : string) : Prop :=
  prop error "code" = VStr c.

(** [error.body?.detail] *)
Definition upstream_detail (error : value) : value :=
  if nullish (prop error "body") then VUndefined else prop (prop error "body") "detail".

(** A positive number; NaN is not one. *)
Definition positive (n : number) : Prop :=
  match n with
  | Num q => (0 < q)%Q
  | NaN => False
  end.

(** The media kind of a tool: which extractor its case applies. *)
Inductive media := Image | Video | Audio | Model3D.

Definition media_of (t : tool) : media :=
  match t with
  | generate_image | edit_image | image_to_image | inpaint_ | style_transfer
  | upscale_image | remove_background | face_swap_image
  | segment_image | estimate_depth => Image
  | text_to_video | image_to_video | lipsync_ | avatar_video
  | upscale_video | remove_video_background | face_swap_video => Video
  | generate_music | text_to_speech | generate_sound_effect => Audio
  | image_to_3d | retexture_3d => Model3D
  end.

(** The Extracting stage: the locator the case goes on with, if any. *)
Definition truthy_or_none (url : value) : option value :=
  if truthy url then Some url else None.

Definition extract_locator (t : tool) (data : value) : exc (option value) :=
  match media_of t with
  | Image => urls <- extractImageUrls data;; Ok (hd_error urls)
  | Video => url <- extractVideoUrl data;; Ok (truthy_or_none url)
  | Audio => url <- extractAudioUrl data;; Ok (truthy_or_none url)
  | Model3D => url <- extract3DUrl data;; Ok (truthy_or_none url)
  end.

(** The inspection-style operations of the specification. *)
Definition inspection (t : tool) : bool :=
  match t with
  | segment_image | estimate_depth => true
  | _ => false
  end.

(** The operations that answer with the raw payload when no locator is
    found: the inspection-style ones, and the audio and 3D ones. *)
Definition raw_on_empty (t : tool) : bool :=
  inspection t ||
  match media_of t with
  | Audio | Model3D => true
  | _ => false
  end.

(** The long latency class as the specification words it: the video,
    audio and 3D jobs. *)
Definition spec_long (t : tool) : bool :=
  match media_of t with
  | Image => false
  | Video | Audio | Model3D => true
  end.

(** The tools whose client method goes through [runLong]. *)
Definition runs_long (t : tool) : bool :=
  match t with
  | text_to_video | image_to_video | lipsync_ | avatar_video
  | upscale_video | remove_video_background | face_swap_video
  | generate_music | image_to_3d | retexture_3d => true
  | _ => false
  end.

Definition is_subscribe (e : event) : bool :=
  match e with ESubscribe _ _ _ => true | _ => false end.
Definition is_fetch (e : event) : bool :=
  match e with EFetch _ => true | _ => false end.
Definition is_write (e : event) : bool :=
  match e with EWriteFile _ _ => true | _ => false end.

Definition count (p : event -> bool) (tr : list event) : nat :=
  List.length (filter p tr).

(** An argument bag without the field [f]: not an object at all, or an
    object that lacks the key. *)
Definition missing_field (f : string) (args : value) : Prop :=
  forall p fs, args = VObj p fs -> has_key f fs = false.

(** [data] is the payload of an upstream call that resolved. *)
Definition upstream_payload (h : Host) (data : value) : Prop :=
  exists model input budget result,
    fal_subscribe h model input budget = Resolves result
    /\ get result "data" = Ok data.

Definition default_config : Config :=
  {| apiKey := "key"; timeout := Num 120000; outputDir := "./generated-media" |}.

(* ================================================================== *)
(** ** index.ts: the parameter tables of the catalogue (tools/list) *)
(* ================================================================== *)

(** One entry of [inputSchema.properties]: its JSON type, its [enum]
    (empty when there is none) and its [minimum] and [maximum].  The
    free-text [description] of a property plays no role in dispatch and
    is left out. *)
Inductive json_type := JString | JInteger | JNumber.

Record property := {
  ptype : json_type;
  enum : list string;
  minimum : option Q;
  maximum : option Q
}.

Definition p_string : property :=
  {| ptype := JString; enum := []; minimum := None; maximum := None |}.
Definition p_enum (values : list string) : property :=
  {| ptype := JString; enum := values; minimum := None; maximum := None |}.
Definition p_integer (lo hi : option Q) : property :=
  {| ptype := JInteger; enum := []; minimum := lo; maximum := hi |}.
Definition p_number (lo hi : option Q) : property :=
  {| ptype := JNumber; enum := []; minimum := lo; maximum := hi |}.

Definition image_sizes : list string :=
  ["square_hd"; "square"; "portrait_4_3"; "portrait_16_9"; "landscape_4_3"; "landscape_16_9"].

Definition inputSchema_properties (t : tool) : list (string * property) :=
  match t with
  | generate_image =>
      [("prompt", p_string);
       ("image_size", p_enum image_sizes);
       ("num_images", p_integer (Some 1) (Some 4));
       ("seed", p_integer None None);
       ("output_format", p_enum ["png"; "jpeg"]);
       ("save_path", p_string)]
  | edit_image =>
      [("prompt", p_string);
       ("image_url", p_string);
       ("image_size", p_enum image_sizes);
       ("seed", p_integer None None);
       ("save_path", p_string)]
  | image_to_image =>
      [("prompt", p_string);
       ("image_url", p_string);
       ("strength", p_number (Some 0) (Some 1));
       ("image_size", p_enum image_sizes);
       ("num_inference_steps", p_integer (Some 1) (Some 50));
       ("seed", p_integer None None);
       ("num_images", p_integer (Some 1) (Some 4));
       ("output_format", p_enum ["png"; "jpeg"]);
       ("save_path", p_string)]
  | inpaint_ =>
      [("prompt", p_string);
       ("image_url", p_string);
       ("mask_url", p_string);
       ("image_size", p_enum image_sizes);
       ("num_inference_steps", p_integer (Some 1) (Some 50));
       ("seed", p_integer None None);
       ("output_format", p_enum ["png"; "jpeg"]);
       ("save_path", p_string)]
  | style_transfer =>
      [("image_url", p_string);
       ("image_size", p_enum image_sizes);
       ("num_inference_steps", p_integer (Some 1) (Some 4));
       ("seed", p_integer None None);
       ("num_images", p_integer (Some 1) (Some 4));
       ("save_path", p_string)]
  | text_to_video =>
      [("prompt", p_string);
       ("duration", p_enum ["5"; "10"]);
       ("aspect_ratio", p_enum ["16:9"; "9:16"; "1:1"]);
       ("negative_prompt", p_string);
       ("save_path", p_string)]
  | image_to_video =>
      [("prompt", p_string);
       ("image_url", p_string);
       ("duration", p_enum ["5"; "10"]);
       ("aspect_ratio", p_enum ["16:9"; "9:16"; "1:1"]);
       ("save_path", p_string)]
  | lipsync_ =>
      [("video_url", p_string); ("audio_url", p_string); ("save_path", p_string)]
  | avatar_video =>
      [("image_url", p_string); ("audio_url", p_string); ("save_path", p_string)]
  | upscale_image =>
      [("image_url", p_string);
       ("scale", p_number (Some 1) (Some 8));
       ("save_path", p_string)]
  | upscale_video =>
      [("video_url", p_string);
       ("scale", p_number (Some 1) (Some 4));
       ("save_path", p_string)]
  | remove_background =>
      [("image_url", p_string); ("save_path", p_string)]
  | remove_video_background =>
      [("video_url", p_string); ("save_path", p_string)]
  | face_swap_image =>
      [("base_image_url", p_string); ("swap_image_url", p_string); ("save_path", p_string)]
  | face_swap_video =>
      [("base_video_url", p_string); ("swap_image_url", p_string); ("save_path", p_string)]
  | segment_image =>
      [("image_url", p_string); ("prompt", p_string); ("save_path", p_string)]
  | estimate_depth =>
      [("image_url", p_string); ("save_path", p_string)]
  | generate_music =>
      [("prompt", p_string);
       ("duration", p_number None None);
       ("save_path", p_string)]
  | text_to_speech =>
      [("text", p_string);
       ("voice_id", p_string);
       ("speed", p_number (Some 0.5) (Some 2.0));
       ("save_path", p_string)]
  | generate_sound_effect =>
      [("prompt", p_string);
       ("duration_seconds", p_number None None);
       ("save_path", p_string)]
  | image_to_3d =>
      [("image_url", p_string); ("save_path", p_string)]
  | retexture_3d =>
      [("model_url", p_string);
       ("prompt", p_string);
       ("reference_image_url", p_string);
       ("save_path", p_string)]
  end.

(* ================================================================== *)
(** ** Further vocabulary *)
(* ================================================================== *)

(** The zod schema that enforces a catalogue property: the type, the
    integrality and the bounds; a required string must be non-empty; the
    [enum] has no counterpart. *)
Definition bounds_of (p : property) : list check :=
  (match minimum p with Some m => [c_min m] | None => [] end
   ++ match maximum p with Some m => [c_max m] | None => [] end)%list.

Definition enforced (required : list string) (kp : string * property) : string * schema :=
  let '(k, p) := kp in
  let is_required := existsb (String.eqb k) required in
  let base :=
    match ptype p with
    | JString => string_ (if is_required then [c_min 1] else [])
    | JInteger => number_ (c_int :: bounds_of p)
    | JNumber => number_ (bounds_of p)
    end in
  (k, if is_required then base else optional base).

(** A value satisfies a check of a number schema. *)
Definition check_holds (q : Q) (c : check) : Prop :=
  match c with
  | c_int => isInteger q = true
  | c_min m => (m <= q)%Q
  | c_max m => (q <= m)%Q
  end.

(** The ordered shape probes of the extractors: the first truthy probe
    wins, and [null] stands for no match. *)
Fixpoint first_truthy (probes : list value) : value :=
  match probes with
  | [] => VNull
  | v :: rest => if truthy v then v else first_truthy rest
  end.

(** [data.k?.url] on a payload that is neither [undefined] nor [null]. *)
Definition nested_url (data : value) (k : string) : value :=
  if nullish (prop data k) then VUndefined else prop (prop data k) "url".




(** A host whose failures are error values, never [undefined] or
    [null]: what the upstream client, [fetch] and [fs] raise. *)
Record raises_objects (h : Host) : Prop := {
  subscribe_raises : forall model input budget err,
    fal_subscribe h model input budget = Rejects err -> nullish err = false;
  mkdir_raises : forall dir err, fs_mkdirSync h dir = Some err -> nullish err = false;
  fetch_raises : forall url err, fetch h url = Failed err -> nullish err = false;
  body_raises : forall url response err,
    fetch h url = Fulfilled response -> arrayBuffer response = Throw err ->
    nullish err = false;
  write_raises : forall path data err,
    fs_writeFileSync h path data = Some err -> nullish err = false
}.

(** The order of the effects of a download, and of an invocation: the
    directory first, then the fetch, then the write; all of it after the
    upstream call. *)
Definition download_shape (tr : list event) : bool :=
  match tr with
  | [] | [EMkdir _] | [EFetch _] | [EMkdir _; EFetch _]
  | [EFetch _; EWriteFile _ _] | [EMkdir _; EFetch _; EWriteFile _ _] => true
  | _ => false
  end.

Definition invocation_shape (tr : list event) : bool :=
  match tr with
  | [] => true
  | ESubscribe _ _ _ :: rest => download_shape rest
  | _ => false
  end.

(* ================================================================== *)
(** ** Properties of the extractors *)
(* ================================================================== *)

Lemma truthy_VStr (s : string) : s <> "" -> truthy (VStr s) = true.
Proof.
  intros Hs. simpl. destruct (String.eqb_spec s ""); [contradiction | reflexivity].
Qed.

Lemma get_prop (v : value) (k : string) :
  nullish v = false -> get v k = Ok (prop v k).
Proof. destruct v; simpl; intros H; try discriminate; reflexivity. Qed.

Lemma extractImageUrls_array (data : value) (l : list value) :
  get data "images" = Ok (VArr l) -> extractImageUrls data = mapImages l.
Proof. intros H. unfold extractImageUrls. rewrite H. reflexivity. Qed.

Lemma mapM_entries (l : list value) :
  Forall (fun img => nullish img = false) l ->
  exc_mapM (fun img => u <- get img "url";; Ok (js_or u img)) l = Ok (map entry_value l).
Proof.
  induction 1 as [|img l Himg _ IH]; simpl.
  - reflexivity.
  - rewrite (get_prop img "url" Himg). simpl. rewrite IH. reflexivity.
Qed.

Lemma mapM_nullish (l : list value) :
  Exists (fun img => nullish img = true) l ->
  exists e, exc_mapM (fun img => u <- get img "url";; Ok (js_or u img)) l = Throw e.
Proof.
  induction 1 as [img l Himg | img l _ [e IH]]; simpl.
  - destruct img; try discriminate; simpl; eauto.
  - destruct (get img "url"); simpl; [rewrite IH|]; simpl; eauto.
Qed.

Lemma image_entries_urls (l : list value) (urls : list string) :
  Forall2 image_entry l urls ->
  Forall (fun img => nullish img = false) l /\
  filter truthy (map entry_value l) = map VStr (filter nonempty urls).
Proof.
  induction 1 as [|img u l urls Hent _ [IHn IHf]].
  - split; [constructor | reflexivity].
  - split.
    + constructor; [destruct Hent; reflexivity | exact IHn].
    + destruct Hent as [s | p fs u Hurl Hu].
      * cbn [map filter]. replace (entry_value (VStr s)) with (VStr s) by reflexivity.
        unfold nonempty at 1. simpl truthy.
        destruct (String.eqb s ""); simpl; [| f_equal]; exact IHf.
      * cbn [map filter].
        replace (entry_value (VObj p fs)) with (VStr u)
          by (unfold entry_value, js_or; simpl; rewrite Hurl, (truthy_VStr u Hu); reflexivity).
        rewrite (truthy_VStr u Hu). unfold nonempty at 1.
        destruct (String.eqb_spec u ""); [contradiction|].
        simpl. f_equal. exact IHf.
Qed.

(** C6. Image extraction is plural-first.  For every payload whose
    [images] field is a sequence of entries, each a bare string or an
    object with a [url] attribute, [extractImageUrls] returns the URLs of
    that sequence (an empty bare string is dropped) whatever the
    singular top-level [url] field, and every other field, holds; and
    [{images:[{url:"a"}], url:"b"}] yields [["a"]]. *)
Theorem extractImageUrls_plural_first
    (p : proto) (fs : list (string * value)) (l : list value) (urls : list string) :
  lookup "images" fs = VArr l ->
  Forall2 image_entry l urls ->
  extractImageUrls (VObj p fs) = Ok (map VStr (filter nonempty urls))
  /\ extractImageUrls (obj [("images", VArr [obj [("url", VStr "a")]]); ("url", VStr "b")])
     = Ok [VStr "a"].
Proof.
  intros Himages Hent. split; [|reflexivity].
  destruct (image_entries_urls l urls Hent) as [Hn Hf].
  rewrite (extractImageUrls_array (VObj p fs) l) by (simpl; now rewrite Himages).
  unfold mapImages. rewrite (mapM_entries l Hn). simpl. now rewrite Hf.
Qed.

Lemma extractImageUrls_plural_first_witness :
  extractImageUrls
    (obj [("url", VStr "b"); ("images", VArr [VStr "c"; obj [("url", VStr "a")]])])
  = Ok [VStr "c"; VStr "a"].
Proof.
  apply (extractImageUrls_plural_first PObject
           [("url", VStr "b"); ("images", VArr [VStr "c"; obj [("url", VStr "a")]])]
           [VStr "c"; obj [("url", VStr "a")]] ["c"; "a"]).
  - reflexivity.
  - repeat constructor. discriminate.
Defined.

(** C7. On [{output:{url:x}}] with no other field, where [x] is a URL
    (a non-empty string), the video, audio and 3D extractors all return
    [x], through the generic output wrapper. *)
Theorem extract_output_fallback (x : string) :
  x <> "" ->
  let data := obj [("output", obj [("url", VStr x)])] in
  extractVideoUrl data = Ok (VStr x)
  /\ extractAudioUrl data = Ok (VStr x)
  /\ extract3DUrl data = Ok (VStr x).
Proof.
  intros Hx data. subst data.
  unfold extractVideoUrl, extractAudioUrl, extract3DUrl. simpl.
  destruct (String.eqb_spec x ""); [contradiction|]. simpl. auto.
Qed.

Lemma extract_output_fallback_witness :
  let data := obj [("output", obj [("url", VStr "x")])] in
  extractVideoUrl data = Ok (VStr "x")
  /\ extractAudioUrl data = Ok (VStr "x")
  /\ extract3DUrl data = Ok (VStr "x").
Proof. apply (extract_output_fallback "x"). discriminate. Defined.

(** C10. Whenever the [images] field of a payload is an array,
    [extractImageUrls] is decided by that array alone: it returns the
    truthy ones among the values [img.url || img] of its entries (the
    mapping raises on a [null] or [undefined] entry, and only then), and
    payloads that agree on [images] get the same answer, so the singular
    fallback fields are never consulted; [{images:[], url:"b"}] yields
    the empty list. *)
Theorem extractImageUrls_array_only (data : value) (l : list value) :
  get data "images" = Ok (VArr l) ->
  (Forall (fun img => nullish img = false) l ->
     extractImageUrls data = Ok (filter truthy (map entry_value l)))
  /\ (Exists (fun img => nullish img = true) l ->
     exists e, extractImageUrls data = Throw e)
  /\ (forall data', get data' "images" = Ok (VArr l) ->
     extractImageUrls data' = extractImageUrls data)
  /\ extractImageUrls (obj [("images", VArr []); ("url", VStr "b")]) = Ok [].
Proof.
  intros Himages. rewrite (extractImageUrls_array data l Himages).
  repeat split.
  - intros Hn. unfold mapImages. now rewrite (mapM_entries l Hn).
  - intros Hex. unfold mapImages. destruct (mapM_nullish l Hex) as [e He].
    exists e. now rewrite He.
  - intros data' H'. apply (extractImageUrls_array data' l H').
Qed.

Lemma extractImageUrls_array_only_witness :
  extractImageUrls (obj [("images", VArr [VStr "a"; VStr ""]); ("url", VStr "b")])
  = Ok [VStr "a"].
Proof.
  apply (proj1 (extractImageUrls_array_only
                  (obj [("images", VArr [VStr "a"; VStr ""]); ("url", VStr "b")])
                  [VStr "a"; VStr ""] eq_refl)).
  repeat constructor.
Defined.

(* ================================================================== *)
(** ** Error classification *)
(* ================================================================== *)

Lemma eq_str_iff (v : value) (s : string) : eq_str v s = true <-> v = VStr s.
Proof.
  destruct v; simpl; try (split; [discriminate | intros H; discriminate H]).
  destruct (String.eqb_spec s0 s); split; intros H; congruence.
Qed.

Lemma eq_num_iff (error : value) (n : Z) :
  eq_num (prop error "status") n = true <-> has_status error n.
Proof.
  unfold has_status. destruct (prop error "status") as [| | |[|q]| | |]; simpl;
    try (split; [discriminate | intros (q' & H & _); discriminate H]).
  rewrite Qeq_bool_iff. split.
  - intros H. exists q. split; [reflexivity | exact H].
  - intros (q' & H & Hq). inversion H. exact Hq.
Qed.

Lemma get_opt_prop (v : value) (k : string) :
  get_opt v k = Ok (if nullish v then VUndefined else prop v k).
Proof.
  unfold get_opt. destruct (nullish v) eqn:Hv; [reflexivity | now apply get_prop].
Qed.

Ltac reflect_tests :=
  repeat match goal with
  | H : eq_str _ _ = true |- _ => apply eq_str_iff in H
  | H : eq_str _ _ = false |- _ => apply not_true_iff_false in H; rewrite eq_str_iff in H
  | H : eq_num _ _ = true |- _ => apply eq_num_iff in H
  | H : eq_num _ _ = false |- _ => apply not_true_iff_false in H; rewrite eq_num_iff in H
  end.

(** An error that is neither [undefined] nor [null] is always
    classified: [handleError] returns an [Error]. *)
Lemma handleError_total (h : Host) (error : value) :
  nullish error = false -> exists msg, handleError h error = Ok (newError msg).
Proof.
  intros Hn. unfold handleError.
  repeat first
    [ rewrite (get_prop error) by exact Hn; cbn [exc_bind]
    | rewrite get_opt_prop; cbn [exc_bind]
    | match goal with
      | |- context [if ?b then _ else _] => destruct b
      end ];
    eauto.
Qed.

(** C4. Error classification is first-match-wins and yields exactly one
    message: the timeout message first; then invalid credentials on
    status 401 or 403; then rate limit on status 429; then the upstream
    validation error on status 422, with the upstream detail when there
    is one (else the error's message); then network unreachable on the
    codes ENOTFOUND or ECONNREFUSED; else the generic message embedding
    the raw error text. *)
Theorem handleError_precedence (h : Host) (error : value) :
  nullish error = false ->
  exists msg : string,
    handleError h error = Ok (newError msg)
    /\ (is_timeout error -> msg = msg_timeout)
    /\ (~ is_timeout error ->
        has_status error 401 \/ has_status error 403 -> msg = msg_api_key)
    /\ (~ is_timeout error ->
        ~ has_status error 401 -> ~ has_status error 403 ->
        has_status error 429 -> msg = msg_rate_limit)
    /\ (~ is_timeout error ->
        ~ has_status error 401 -> ~ has_status error 403 -> ~ has_status error 429 ->
        has_status error 422 ->
        msg = "fal.ai validation error: "
              ++ String_ h (if truthy (upstream_detail error)
                            then upstream_detail error
                            else prop error "message"))
    /\ (~ is_timeout error ->
        ~ has_status error 401 -> ~ has_status error 403 -> ~ has_status error 429 ->
        ~ has_status error 422 ->
        has_code error "ENOTFOUND" \/ has_code error "ECONNREFUSED" ->
        msg = "Failed to connect to fal.ai API: " ++ String_ h (prop error "message"))
    /\ (~ is_timeout error ->
        ~ has_status error 401 -> ~ has_status error 403 -> ~ has_status error 429 ->
        ~ has_status error 422 ->
        ~ has_code error "ENOTFOUND" -> ~ has_code error "ECONNREFUSED" ->
        msg = "fal.ai API error: "
              ++ String_ h (if truthy (prop error "message")
                            then prop error "message"
                            else error)).
Proof.
  intros Hn. unfold handleError, is_timeout, has_code, js_or.
  repeat first
    [ rewrite (get_prop error) by exact Hn; cbn [exc_bind]
    | rewrite get_opt_prop; fold (upstream_detail error); cbn [exc_bind]
    | match goal with
      | |- context [if ?b || _ then _ else _] => destruct b eqn:?; cbn [orb]
      | |- context [if ?b then Ok _ else _] => destruct b eqn:?
      end ];
    reflect_tests;
    (eexists; split; [reflexivity|]); repeat split; intros;
    try reflexivity; exfalso; tauto.
Qed.

Lemma handleError_precedence_witness :
  exists msg : string,
    handleError quiet_host
      (obj [("message", VStr "Request timeout"); ("status", VNum (Num 401));
            ("code", VStr "ENOTFOUND")])
    = Ok (newError msg)
    /\ msg = msg_timeout.
Proof.
  destruct (handleError_precedence quiet_host
              (obj [("message", VStr "Request timeout"); ("status", VNum (Num 401));
                    ("code", VStr "ENOTFOUND")]) eq_refl)
    as (msg & Hrun & Htimeout & _).
  exists msg. split; [exact Hrun | apply Htimeout; reflexivity].
Defined.

(* ================================================================== *)
(** ** Configuration *)
(* ================================================================== *)

Lemma loadConfig_default (key : string) (dir : option string) :
  key <> "" ->
  exists c, loadConfig {| FAL_KEY := Some key; FAL_OUTPUT_DIR := dir; FAL_TIMEOUT := None |}
            = Ok c /\ timeout c = Num 120000.
Proof.
  intros Hk. unfold loadConfig. simpl.
  destruct (String.eqb_spec key ""); [contradiction|]. simpl. eauto.
Qed.

(** Whenever [loadConfig] returns, the budget is positive or NaN. *)
Lemma loadConfig_positive_or_NaN (env : ProcessEnv) (c : Config) :
  loadConfig env = Ok c -> positive (timeout c) \/ timeout c = NaN.
Proof.
  unfold loadConfig. destruct (env_truthy (FAL_KEY env)); [|discriminate].
  set (t := match env_truthy (FAL_TIMEOUT env) with
            | Some timeoutStr => parseInt timeoutStr
            | None => Num 120000
            end).
  destruct (le0 t) eqn:Hle; [discriminate|].
  intros H. inversion H. simpl. destruct t as [|q]; [now right | left].
  simpl in *. apply Qnot_le_lt. intros Hq. apply Qle_bool_iff in Hq. congruence.
Qed.

(** C8. A timeout string without a leading number slips through the
    positivity test: on [FAL_TIMEOUT=abc], [loadConfig] returns a
    configuration whose timeout is NaN, which is not a positive number. *)
Theorem loadConfig_NaN_timeout :
  loadConfig {| FAL_KEY := Some "key"; FAL_OUTPUT_DIR := None; FAL_TIMEOUT := Some "abc" |}
  = Ok {| apiKey := "key"; timeout := NaN; outputDir := "./generated-media" |}
  /\ ~ positive NaN.
Proof. split; [reflexivity | intros []]. Qed.

(* ================================================================== *)
(** ** The dispatch pipeline: effects of one invocation *)
(* ================================================================== *)

Lemma count_app (p : event -> bool) (a b : list event) :
  count p (a ++ b)%list = (count p a + count p b)%nat.
Proof. unfold count. now rewrite filter_app, length_app. Qed.

Lemma bind_ret_l {A B} (a : A) (f : A -> M B) : bind (ret a) f = f a.
Proof. unfold bind, ret. now destruct (f a). Qed.

Lemma bind_lift_ok {A B} (a : A) (f : A -> M B) : bind (lift (Ok a)) f = f a.
Proof. apply bind_ret_l. Qed.

Lemma bind_lift_throw {A B} (e : value) (f : A -> M B) :
  bind (lift (Throw e)) f = ([], Throw e).
Proof. reflexivity. Qed.

Lemma tool_of_name_name_of (t : tool) : tool_of_name (name_of t) = Some t.
Proof. destruct t; reflexivity. Qed.

Lemma tool_of_name_sound (name : string) (t : tool) :
  tool_of_name name = Some t -> name = name_of t.
Proof.
  unfold tool_of_name. intros H. apply find_some in H. destruct H as [_ H].
  now apply String.eqb_eq in H.
Qed.

(** [downloadFile] issues no upstream call and at most one fetch; it
    writes one file when it returns and none when it raises. *)
Lemma downloadFile_spec (h : Host) (url : value) (savePath : string) :
  exists tr r,
    downloadFile h url savePath = (tr, r)
    /\ count is_subscribe tr = 0%nat
    /\ (count is_fetch tr <= 1)%nat
    /\ ((r = Ok savePath /\ count is_write tr = 1%nat /\ count is_fetch tr = 1%nat)
        \/ ((exists e, r = Throw e) /\ count is_write tr = 0%nat)).
Proof.
  unfold downloadFile, mkdirSync, await_fetch, writeFileSync.
  destruct (fs_existsSync h (path_dirname h savePath));
    [|destruct (fs_mkdirSync h (path_dirname h savePath))];
    (destruct (fetch h url) as [[[] st [buf|e]]|e];
     cbn;
     try match goal with
         | |- context [fs_writeFileSync ?a ?b ?c] => destruct (fs_writeFileSync a b c)
         end);
    cbn; do 2 eexists; (split; [reflexivity|]); cbn;
    repeat split; auto; eauto 6.
Qed.

Ltac pipeline_step :=
  match goal with
  | |- context [bind (lift ?m) _] =>
      destruct m eqn:?; [rewrite bind_lift_ok | rewrite bind_lift_throw]
  | |- context [match ?l with [] => _ | _ :: _ => _ end] =>
      is_var l; destruct l
  | |- context [if negb (truthy ?u) then _ else _] => destruct (truthy u) eqn:?
  | |- context [if truthy ?u then _ else _] => destruct (truthy u) eqn:?
  | |- context [downloadFile ?h ?u ?p] =>
      let tr := fresh "tr" in
      let r := fresh "r" in
      let Heq := fresh "Heq" in
      destruct (downloadFile_spec h u p)
        as (tr & r & Heq & ? & ? & [(-> & ? & ?) | ((? & ->) & ?)]);
      rewrite Heq; clear Heq
  end;
  cbn [bind success failure ret throw negb].

(** What [respond] does: no upstream call, at most one fetch and one
    write; a success response comes with exactly one file written, or it
    is a raw-payload answer of an operation that gives one, with nothing
    fetched or written. *)
Lemma respond_spec (h : Host) (config : Config) (t : tool)
    (input : list (string * value)) (save_path data : value) :
  exists tr r,
    respond h config t input save_path data = (tr, r)
    /\ count is_subscribe tr = 0%nat
    /\ (count is_fetch tr <= 1)%nat
    /\ (count is_write tr <= 1)%nat
    /\ forall res, r = Ok res -> isError res = false ->
         (count is_write tr = 1%nat /\ count is_fetch tr = 1%nat)
         \/ (count is_write tr = 0%nat /\ count is_fetch tr = 0%nat
             /\ raw_on_empty t = true
             /\ exists title, text res = title ++ nl ++ JSON_stringify h data).
Proof.
  destruct t; unfold respond, save_first, save_url; cbv zeta;
    repeat pipeline_step.
  all: do 2 eexists; (split; [reflexivity|]).
  all: rewrite ?count_app; cbn [count filter is_subscribe is_fetch is_write List.length app].
  all: repeat split; try lia.
  all: intros res Hres Herr; try discriminate Hres.
  all: injection Hres as <-; cbv beta iota delta [isError text] in *;
    try discriminate Herr.
  all: try (left; split; lia).
  all: right; repeat split; try lia.
  all: first
    [ eexists; reflexivity
    | exists ("Segmentation complete." ++ nl ++ nl ++ "Raw result:"); reflexivity
    | exists ("Depth estimation complete." ++ nl ++ nl ++ "Raw result:"); reflexivity
    | exists "Music generation result:"; reflexivity
    | exists "TTS result:"; reflexivity
    | exists "Sound effect result:"; reflexivity
    | exists "3D generation result:"; reflexivity
    | exists "Retexture result:"; reflexivity ].
Qed.

Lemma race_spec (h : Host) (model : string) (input : value) (budget : number) :
  race h model input budget
  = ([ESubscribe model input budget],
     match fal_subscribe h model input budget with
     | Resolves result => Ok result
     | Rejects err => Throw err
     | TimerFirst => Throw (newError "Request timeout")
     end).
Proof.
  unfold race. destruct (fal_subscribe h model input budget); reflexivity.
Qed.

(** Every client method races one [fal.subscribe] call, against the
    base budget or against five times the base budget. *)
Lemma client_call_race (h : Host) (client : FalClient) (t : tool) (apiInput : value) :
  exists model,
    client_call h client t apiInput
    = race h model apiInput
        (if runs_long t then times5 (this_timeout client) else this_timeout client).
Proof. destruct t; eexists; reflexivity. Qed.

Lemma client_call_spec (h : Host) (client : FalClient) (t : tool) (apiInput : value) :
  exists model r,
    client_call h client t apiInput
    = ([ESubscribe model apiInput
          (if runs_long t then times5 (this_timeout client) else this_timeout client)], r)
    /\ forall result, r = Ok result ->
         exists budget, fal_subscribe h model apiInput budget = Resolves result.
Proof.
  destruct (client_call_race h client t apiInput) as [model ->].
  rewrite race_spec. do 2 eexists. split; [reflexivity|].
  intros result Hr.
  exists (if runs_long t then times5 (this_timeout client) else this_timeout client).
  destruct (fal_subscribe h model apiInput _); try discriminate Hr.
  now injection Hr as ->.
Qed.

Lemma handle_case_parsed (h : Host) (config : Config) (client : FalClient)
    (t : tool) (args : value) (input : list (string * value)) :
  safeParse (schema_of t) args = inr input ->
  handle_case h config client t args
  = (result <~ client_call h client t (snd (rest_save_path input));;
     data <~ lift (get result "data");;
     respond h config t input (fst (rest_save_path input)) data).
Proof.
  intros H. unfold handle_case, parse. rewrite H. now rewrite bind_ret_l.
Qed.

Lemma handle_case_invalid (h : Host) (config : Config) (client : FalClient)
    (t : tool) (args : value) (issues : list issue) :
  safeParse (schema_of t) args = inl issues ->
  handle_case h config client t args = ([], Throw (ZodError h issues)).
Proof. intros H. unfold handle_case, parse. now rewrite H. Qed.

(** The [catch] clause turns an error object into an error-flagged
    response without any further effect. *)
Lemma catch_spec (h : Host) (error : value) :
  exists r,
    (handled <~ lift (handleError h error);;
     message <~ lift (get handled "message");;
     failure (String_ h message)) = ([], r)
    /\ forall res, r = Ok res -> isError res = true.
Proof.
  destruct (handleError h error) as [handled|e] eqn:Hh.
  - rewrite bind_lift_ok. destruct (get handled "message") as [message|e] eqn:Hm.
    + rewrite bind_lift_ok. eexists. split; [reflexivity|].
      intros res Hres. injection Hres as <-. reflexivity.
    + eexists. split; [reflexivity|]. discriminate.
  - eexists. split; [reflexivity|]. discriminate.
Qed.

Lemma catch_object (h : Host) (error : value) :
  nullish error = false ->
  exists msg,
    handleError h error = Ok (newError msg)
    /\ (handled <~ lift (handleError h error);;
        message <~ lift (get handled "message");;
        failure (String_ h message)) = ([], Ok {| text := msg; isError := true |}).
Proof.
  intros Hn. destruct (handleError_total h error Hn) as [msg Hmsg].
  exists msg. split; [exact Hmsg|]. rewrite Hmsg. reflexivity.
Qed.

(** Effects of one case of the switch. *)
Lemma handle_case_spec (h : Host) (config : Config) (client : FalClient)
    (t : tool) (args : value) :
  exists tr r,
    handle_case h config client t args = (tr, r)
    /\ (count is_subscribe tr <= 1)%nat
    /\ (count is_fetch tr <= 1)%nat
    /\ (count is_write tr <= 1)%nat
    /\ forall res, r = Ok res -> isError res = false ->
         (count is_write tr = 1%nat /\ count is_fetch tr = 1%nat)
         \/ (count is_write tr = 0%nat /\ count is_fetch tr = 0%nat
             /\ raw_on_empty t = true
             /\ exists title data,
                  upstream_payload h data
                  /\ text res = title ++ nl ++ JSON_stringify h data).
Proof.
  destruct (safeParse (schema_of t) args) as [issues|input] eqn:Hparse.
  - rewrite (handle_case_invalid h config client t args issues Hparse).
    do 2 eexists. split; [reflexivity|]. cbn. repeat split; try lia. discriminate.
  - rewrite (handle_case_parsed h config client t args input Hparse).
    destruct (client_call_spec h client t (snd (rest_save_path input)))
      as (model & r & -> & Hup).
    destruct r as [result|e]; cbn [bind].
    2:{ do 2 eexists. split; [reflexivity|]. cbn. repeat split; try lia. discriminate. }
    destruct (get result "data") as [data|e] eqn:Hdata;
      [rewrite bind_lift_ok | rewrite bind_lift_throw].
    2:{ do 2 eexists. split; [reflexivity|]. cbn. repeat split; try lia. discriminate. }
    destruct (Hup result eq_refl) as [budget Hsub].
    destruct (respond_spec h config t input (fst (rest_save_path input)) data)
      as (tr & r & -> & Hs & Hf & Hw & Hok).
    do 2 eexists. split; [reflexivity|].
    change (ESubscribe ?m ?i ?b :: tr)%list with ([ESubscribe m i b] ++ tr)%list.
    rewrite !count_app. cbn [count filter is_subscribe is_fetch is_write List.length].
    repeat split; try lia.
    intros res Hres Herr. destruct (Hok res Hres Herr) as [[? ?]|(? & ? & ? & title & ?)].
    + left. split; lia.
    + right. repeat split; try lia; auto.
      exists title, data. split; [|assumption].
      exists model, (snd (rest_save_path input)), budget, result. auto.
Qed.

(* ================================================================== *)
(** ** Properties of the dispatcher *)
(* ================================================================== *)

(** C3. Every invocation runs the download-and-persist step at most
    once: at most one fetch and at most one file written.  A success
    response comes with exactly one file written, unless it is the
    raw-payload answer of a segmentation, depth, audio or 3D operation,
    which comes with none. *)
Theorem persist_at_most_once (h : Host) (config : Config) (client : FalClient)
    (name : string) (args : value) :
  exists tr r,
    callTool h config client name args = (tr, r)
    /\ (count is_fetch tr <= 1)%nat
    /\ (count is_write tr <= 1)%nat
    /\ forall res, r = Ok res -> isError res = false ->
         (count is_write tr = 1%nat /\ count is_fetch tr = 1%nat)
         \/ (count is_write tr = 0%nat /\ count is_fetch tr = 0%nat
             /\ exists t title data,
                  tool_of_name name = Some t
                  /\ raw_on_empty t = true
                  /\ upstream_payload h data
                  /\ text res = title ++ nl ++ JSON_stringify h data).
Proof.
  unfold callTool. destruct (tool_of_name name) as [t|] eqn:Hname.
  - destruct (handle_case_spec h config client t args)
      as (tr & r & -> & Hs & Hf & Hw & Hok).
    destruct r as [res|e]; cbn [try_catch].
    + do 2 eexists. split; [reflexivity|]. repeat split; try lia.
      intros res' Hres Herr. destruct (Hok res' Hres Herr)
        as [[? ?]|(? & ? & ? & title & data & ? & ?)].
      * left. split; lia.
      * right. repeat split; try lia. exists t, title, data. auto.
    + destruct (catch_spec h e) as (r & -> & Hr).
      do 2 eexists. split; [reflexivity|]. rewrite app_nil_r.
      repeat split; try lia.
      intros res Hres Herr. rewrite (Hr res Hres) in Herr. discriminate.
  - unfold throw. cbn [try_catch].
    destruct (catch_spec h (newError ("Unknown tool: " ++ name))) as (r & -> & Hr).
    do 2 eexists. split; [reflexivity|]. cbn.
    repeat split; try lia.
    intros res Hres Herr. rewrite (Hr res Hres) in Herr. discriminate.
Qed.

Lemma persist_at_most_once_witness :
  exists tr r,
    callTool quiet_host default_config (createFalClient default_config)
      "estimate_depth" (obj [("image_url", VStr "https://example.com/a.png")])
    = (tr, r)
    /\ (count is_fetch tr <= 1)%nat
    /\ (count is_write tr <= 1)%nat
    /\ forall res, r = Ok res -> isError res = false ->
         (count is_write tr = 1%nat /\ count is_fetch tr = 1%nat)
         \/ (count is_write tr = 0%nat /\ count is_fetch tr = 0%nat
             /\ exists t title data,
                  tool_of_name "estimate_depth" = Some t
                  /\ raw_on_empty t = true
                  /\ upstream_payload quiet_host data
                  /\ text res = title ++ nl ++ JSON_stringify quiet_host data).
Proof.
  exact (persist_at_most_once quiet_host default_config (createFalClient default_config)
           "estimate_depth" (obj [("image_url", VStr "https://example.com/a.png")])).
Defined.

Lemma lookup_absent (k : string) (fs : list (string * value)) :
  has_key k fs = false -> lookup k fs = VUndefined.
Proof.
  unfold has_key. induction fs as [|[k' v] fs IH]; simpl; [reflexivity|].
  destruct (String.eqb k k'); simpl; [discriminate | exact IH].
Qed.

Lemma required_in_schema (t : tool) (f : string) :
  In f (inputSchema_required t) -> In (f, string_ [c_min 1]) (schema_of t).
Proof. destruct t; simpl; intuition (subst; auto). Qed.

Lemma safeParse_missing (sh : shape) (args : value) (f : string) (checks : list check) :
  In (f, string_ checks) sh -> missing_field f args ->
  exists issue issues, safeParse sh args = inl (issue :: issues).
Proof.
  intros Hin Hmiss. destruct args; simpl; eauto.
  specialize (Hmiss p fields eq_refl).
  destruct (flat_map _ sh) as [|issue issues] eqn:Hfm; [exfalso | eauto].
  assert (Hi : In (invalid_type [f] "string" "undefined")
                  (flat_map (fun kv => validate (snd kv) [fst kv] (lookup (fst kv) fields)) sh)).
  { apply in_flat_map. exists (f, string_ checks). split; [exact Hin|].
    simpl. rewrite (lookup_absent f fields Hmiss). now left. }
  rewrite Hfm in Hi. exact Hi.
Qed.

(** C5. For every operation and every argument bag that misses one of
    its required fields, validation fails, the invocation ends in an
    error-flagged response carrying the classified validation error, and
    nothing at all has happened outside: no upstream call was made. *)
Theorem missing_field_no_upstream_call (h : Host) (config : Config) (client : FalClient)
    (t : tool) (args : value) (f : string) :
  In f (inputSchema_required t) ->
  missing_field f args ->
  exists issues msg,
    safeParse (schema_of t) args = inl issues
    /\ handleError h (ZodError h issues) = Ok (newError msg)
    /\ callTool h config client (name_of t) args
       = ([], Ok {| text := msg; isError := true |})
    /\ count is_subscribe (fst (callTool h config client (name_of t) args)) = 0%nat.
Proof.
  intros Hreq Hmiss.
  destruct (safeParse_missing (schema_of t) args f [c_min 1]
              (required_in_schema t f Hreq) Hmiss) as (issue & issues & Hparse).
  destruct (catch_object h (ZodError h (issue :: issues)) eq_refl) as (msg & Hmsg & Hcatch).
  exists (issue :: issues), msg.
  assert (Hcall : callTool h config client (name_of t) args
                  = ([], Ok {| text := msg; isError := true |})).
  { unfold callTool. rewrite tool_of_name_name_of.
    rewrite (handle_case_invalid h config client t args _ Hparse).
    cbn [try_catch]. rewrite Hcatch. reflexivity. }
  rewrite Hcall. repeat split; auto.
Qed.

Lemma missing_field_no_upstream_call_witness :
  exists msg,
    callTool quiet_host default_config (createFalClient default_config)
      "generate_image" (obj [("image_size", VStr "square")])
    = ([], Ok {| text := msg; isError := true |}).
Proof.
  destruct (missing_field_no_upstream_call quiet_host default_config
              (createFalClient default_config) generate_image
              (obj [("image_size", VStr "square")]) "prompt")
    as (issues & msg & _ & _ & Hcall & _).
  - simpl. auto.
  - intros p fs Heq. injection Heq as _ <-. reflexivity.
  - exists msg. exact Hcall.
Defined.

Lemma lookup_rest (k : string) (input : list (string * value)) :
  k <> "save_path" ->
  lookup k (filter (fun kv => negb (String.eqb (fst kv) "save_path")) input)
  = lookup k input
  /\ has_key k (filter (fun kv => negb (String.eqb (fst kv) "save_path")) input)
     = has_key k input.
Proof.
  intros Hk. unfold has_key.
  induction input as [|[k' v] input [IHl IHh]]; simpl; [auto|].
  destruct (String.eqb_spec k' "save_path") as [->|Hk']; simpl.
  - destruct (String.eqb_spec k "save_path"); [contradiction | auto].
  - rewrite IHl, IHh. auto.
Qed.

Lemma rest_drops_save_path (input : list (string * value)) :
  has_key "save_path" (filter (fun kv => negb (String.eqb (fst kv) "save_path")) input)
  = false.
Proof.
  unfold has_key. induction input as [|[k' v] input IH]; [reflexivity|].
  cbn [filter fst]. destruct (String.eqb_spec k' "save_path") as [->|Hk'];
    cbn [negb map existsb fst]; [exact IH|].
  rewrite (proj2 (String.eqb_neq "save_path" k')) by congruence. exact IH.
Qed.

(** The parsed record holds fields of the argument bag, unchanged. *)
Lemma safeParse_fields (sh : shape) (args : value) (input : list (string * value))
    (k : string) :
  safeParse sh args = inr input ->
  has_key k input = true -> lookup k input = prop args k.
Proof.
  destruct args; simpl; try discriminate.
  destruct (flat_map _ sh); [|discriminate].
  intros H. injection H as <-. unfold has_key.
  induction sh as [|[k' s] sh IH]; [discriminate|].
  cbn [flat_map fst snd].
  destruct (existsb (String.eqb k') (map fst fields)); cbn [app]; [|exact IH].
  cbn [map existsb lookup fst orb].
  destruct (String.eqb_spec k k') as [->|]; [reflexivity | exact IH].
Qed.

(** The outside of an invocation whose arguments validate starts with
    the one upstream call: the rest record of the validated input, raced
    against the budget of the client method. *)
Lemma callTool_trace (h : Host) (config : Config) (client : FalClient)
    (t : tool) (args : value) (input : list (string * value)) :
  safeParse (schema_of t) args = inr input ->
  exists model rest,
    fst (callTool h config client (name_of t) args)
    = ESubscribe model (snd (rest_save_path input))
        (if runs_long t then times5 (this_timeout client) else this_timeout client)
      :: rest
    /\ count is_subscribe rest = 0%nat.
Proof.
  intros Hparse.
  unfold callTool. rewrite tool_of_name_name_of.
  rewrite (handle_case_parsed h config client t args input Hparse).
  destruct (client_call_spec h client t (snd (rest_save_path input)))
    as (model & r & -> & _).
  destruct r as [result|e]; cbn [bind].
  2:{ cbn [try_catch]. destruct (catch_spec h e) as (r & -> & _).
      do 2 eexists. split; reflexivity. }
  destruct (get result "data") as [data|e];
    [rewrite bind_lift_ok | rewrite bind_lift_throw].
  2:{ cbn [try_catch]. destruct (catch_spec h e) as (r & -> & _).
      do 2 eexists. split; reflexivity. }
  destruct (respond_spec h config t input (fst (rest_save_path input)) data)
    as (tr & r & -> & Hs & _).
  destruct r as [res|e]; cbn [try_catch].
  - do 2 eexists. split; [reflexivity | exact Hs].
  - destruct (catch_spec h e) as (r & -> & _). rewrite app_nil_r.
    do 2 eexists. split; [reflexivity | exact Hs].
Qed.

(** C9. For every operation and every validated argument record, the
    record forwarded to the upstream invoker (in the one upstream call
    of the invocation) has no [save_path] field, and every other
    validated field is forwarded unchanged, as it was in the argument
    bag. *)
Theorem save_path_not_forwarded (h : Host) (config : Config) (client : FalClient)
    (t : tool) (args : value) (input : list (string * value)) :
  safeParse (schema_of t) args = inr input ->
  exists model forwarded budget rest,
    fst (callTool h config client (name_of t) args)
    = ESubscribe model (obj forwarded) budget :: rest
    /\ count is_subscribe rest = 0%nat
    /\ has_key "save_path" forwarded = false
    /\ (forall k, k <> "save_path" ->
          lookup k forwarded = lookup k input
          /\ has_key k forwarded = has_key k input)
    /\ (forall k, has_key k forwarded = true -> lookup k forwarded = prop args k).
Proof.
  intros Hparse.
  destruct (callTool_trace h config client t args input Hparse)
    as (model & rest & Htrace & Hrest).
  cbn [rest_save_path snd] in Htrace.
  do 4 eexists. split; [exact Htrace|]. split; [exact Hrest|].
  split; [apply rest_drops_save_path|]. split; [intros k Hk; now apply lookup_rest|].
  intros k Hk. destruct (String.eqb_spec k "save_path") as [->|Hne].
  - rewrite rest_drops_save_path in Hk. discriminate.
  - destruct (lookup_rest k input Hne) as [-> Hh]. rewrite Hh in Hk.
    exact (safeParse_fields _ _ _ _ Hparse Hk).
Qed.

Lemma save_path_not_forwarded_witness :
  exists model forwarded budget rest,
    fst (callTool quiet_host default_config (createFalClient default_config)
           (name_of edit_image)
           (obj [("save_path", VStr "out.png"); ("prompt", VStr "make it blue");
                 ("image_url", VStr "https://example.com/a.png"); ("extra", VNull)]))
    = ESubscribe model (obj forwarded) budget :: rest
    /\ count is_subscribe rest = 0%nat
    /\ has_key "save_path" forwarded = false
    /\ (forall k, k <> "save_path" ->
          lookup k forwarded
          = lookup k [("prompt", VStr "make it blue");
                      ("image_url", VStr "https://example.com/a.png");
                      ("save_path", VStr "out.png")]
          /\ has_key k forwarded
             = has_key k [("prompt", VStr "make it blue");
                          ("image_url", VStr "https://example.com/a.png");
                          ("save_path", VStr "out.png")])
    /\ (forall k, has_key k forwarded = true ->
          lookup k forwarded
          = prop (obj [("save_path", VStr "out.png"); ("prompt", VStr "make it blue");
                       ("image_url", VStr "https://example.com/a.png"); ("extra", VNull)]) k).
Proof.
  exact (save_path_not_forwarded quiet_host default_config
           (createFalClient default_config) edit_image
           (obj [("save_path", VStr "out.png"); ("prompt", VStr "make it blue");
                 ("image_url", VStr "https://example.com/a.png"); ("extra", VNull)])
           [("prompt", VStr "make it blue");
            ("image_url", VStr "https://example.com/a.png");
            ("save_path", VStr "out.png")]
           eq_refl).
Defined.

Example edit_image_forwards :
  callTool quiet_host default_config (createFalClient default_config) "edit_image"
    (obj [("save_path", VStr "out.png"); ("prompt", VStr "make it blue");
          ("image_url", VStr "https://example.com/a.png"); ("extra", VNull)])
  = ([ESubscribe MODELS.EDIT_IMAGE
        (obj [("prompt", VStr "make it blue");
              ("image_url", VStr "https://example.com/a.png")])
        (Num 120000)],
     Ok {| text := "No edited image was generated. Try rephrasing your prompt.";
           isError := true |}).
Proof. reflexivity. Qed.

(** Each tool whose arguments validate races upstream against the base
    budget, or against five times the base budget when its client method
    goes through [runLong]. *)
Lemma upstream_budget (h : Host) (config : Config) (t : tool) (args : value)
    (input : list (string * value)) :
  safeParse (schema_of t) args = inr input ->
  exists model forwarded rest,
    fst (callTool h config (createFalClient config) (name_of t) args)
    = ESubscribe model forwarded
        (if runs_long t then times5 (timeout config) else timeout config) :: rest.
Proof.
  intros Hparse.
  destruct (callTool_trace h config (createFalClient config) t args input Hparse)
    as (model & rest & Htrace & _).
  eauto.
Qed.

(** The long-running tools of the code are the video and 3D jobs and,
    among the audio jobs, music generation only. *)
Lemma runs_long_spec (t : tool) :
  runs_long t = spec_long t
  \/ (t = text_to_speech \/ t = generate_sound_effect)
     /\ runs_long t = false /\ spec_long t = true.
Proof. destruct t; simpl; auto. Qed.

(** C2. Text-to-speech is an audio job, which the specification puts in
    the long class, yet with a base budget of 120000 ms its upstream call
    is raced against 120000 ms, not against five times as much. *)
Theorem text_to_speech_base_budget :
  spec_long text_to_speech = true
  /\ callTool quiet_host default_config (createFalClient default_config)
       "text_to_speech" (obj [("text", VStr "hello")])
     = ([ESubscribe MODELS.TEXT_TO_SPEECH (obj [("text", VStr "hello")]) (Num 120000)],
        Ok {| text := "TTS result:" ++ nl ++ "{}"; isError := false |})
  /\ times5 (Num 120000) = Num (120000 * 5)
  /\ ~ (120000 == 120000 * 5)%Q.
Proof.
  split; [reflexivity|]. split; [reflexivity|]. split; [reflexivity|].
  intros H. apply Qeq_bool_iff in H. discriminate H.
Qed.

Ltac no_locator msg title :=
  exists msg, title;
  intros h config client args input tr result data Hparse Hcall Hdata Hloc;
  unfold callTool; rewrite tool_of_name_name_of;
  rewrite (handle_case_parsed h config client _ args input Hparse);
  rewrite Hcall; cbn [bind]; rewrite Hdata, bind_lift_ok;
  unfold respond, save_first, save_url; cbv zeta;
  unfold extract_locator, truthy_or_none in Hloc; cbn [media_of] in Hloc;
  match type of Hloc with
  | exc_bind ?m _ = _ => destruct m as [x|]; cbn [exc_bind] in Hloc; [|discriminate Hloc]
  end;
  rewrite bind_lift_ok;
  match type of Hloc with
  | Ok (hd_error ?l) = _ => destruct l; [|discriminate Hloc]
  | Ok (if ?b then _ else _) = _ => destruct b; [discriminate Hloc|]
  end;
  cbn [negb failure success ret try_catch raw_on_empty inspection media_of orb];
  rewrite app_nil_r; reflexivity.

(** C1. Each operation has a fixed message and a fixed title such that
    every invocation whose extraction yields no locator ends right after
    the upstream call: with an error-flagged response carrying that
    message for the image and video operations, and with a success
    response carrying the title and the raw payload serialized as text
    for segmentation, depth, and the audio and 3D operations. *)
Theorem no_locator_response (t : tool) :
  exists msg title : string,
  forall (h : Host) (config : Config) (client : FalClient) (args : value)
         (input : list (string * value)) (tr : list event) (result data : value),
    safeParse (schema_of t) args = inr input ->
    client_call h client t (snd (rest_save_path input)) = (tr, Ok result) ->
    get result "data" = Ok data ->
    extract_locator t data = Ok None ->
    callTool h config client (name_of t) args
    = (tr, Ok (if raw_on_empty t
               then {| text := title ++ nl ++ JSON_stringify h data; isError := false |}
               else {| text := msg; isError := true |})).
Proof.
  destruct t.
  - no_locator "No image was generated. Try rephrasing your prompt." "".
  - no_locator "No edited image was generated. Try rephrasing your prompt." "".
  - no_locator "No image was generated. Try rephrasing your prompt." "".
  - no_locator "Inpainting failed. Try a different prompt or mask." "".
  - no_locator "Style transfer failed. Try a different reference image." "".
  - no_locator "No video was generated. Try rephrasing your prompt." "".
  - no_locator "No video was generated. Try a different image or prompt." "".
  - no_locator "Lipsync failed. Check that the video contains a visible face and the audio is clear." "".
  - no_locator "Avatar video generation failed. Ensure the image is a clear portrait/headshot." "".
  - no_locator "Upscaling failed." "".
  - no_locator "Video upscaling failed." "".
  - no_locator "Background removal failed." "".
  - no_locator "Video background removal failed." "".
  - no_locator "Face swap failed. Ensure both images contain clear, visible faces." "".
  - no_locator "Video face swap failed. Ensure the video has a clear face and the swap image is a good headshot." "".
  - no_locator "" ("Segmentation complete." ++ nl ++ nl ++ "Raw result:").
  - no_locator "" ("Depth estimation complete." ++ nl ++ nl ++ "Raw result:").
  - no_locator "" "Music generation result:".
  - no_locator "" "TTS result:".
  - no_locator "" "Sound effect result:".
  - no_locator "" "3D generation result:".
  - no_locator "" "Retexture result:".
Qed.

Lemma no_locator_response_witness :
  exists msg : string,
    callTool quiet_host default_config (createFalClient default_config)
      (name_of lipsync_)
      (obj [("video_url", VStr "https://example.com/v.mp4");
            ("audio_url", VStr "https://example.com/a.mp3")])
    = ([ESubscribe MODELS.LIPSYNC
          (obj [("video_url", VStr "https://example.com/v.mp4");
                ("audio_url", VStr "https://example.com/a.mp3")])
          (Num (120000 * 5))],
       Ok {| text := msg; isError := true |}).
Proof.
  destruct (no_locator_response lipsync_) as (msg & title & H).
  exists msg.
  exact (H quiet_host default_config (createFalClient default_config)
           (obj [("video_url", VStr "https://example.com/v.mp4");
                 ("audio_url", VStr "https://example.com/a.mp3")])
           [("video_url", VStr "https://example.com/v.mp4");
            ("audio_url", VStr "https://example.com/a.mp3")]
           _ _ (obj []) eq_refl eq_refl eq_refl eq_refl).
Defined.

(** Music generation is an audio operation, not an inspection-style
    one; when extraction yields no locator it answers with success and
    the raw payload, not with an error. *)
Lemma no_locator_generate_music_success :
  inspection generate_music = false
  /\ extract_locator generate_music (obj []) = Ok None
  /\ callTool quiet_host default_config (createFalClient default_config)
       "generate_music" (obj [("prompt", VStr "upbeat jazz")])
     = ([ESubscribe MODELS.GENERATE_MUSIC (obj [("prompt", VStr "upbeat jazz")])
           (Num (120000 * 5))],
        Ok {| text := "Music generation result:" ++ nl ++ "{}"; isError := false |}).
Proof. repeat split. Qed.

(** Segmentation called without [save_path] answers with success and
    has written no file. *)
Lemma segment_image_success_without_file :
  callTool quiet_host default_config (createFalClient default_config)
    "segment_image" (obj [("image_url", VStr "https://example.com/a.png")])
  = ([ESubscribe MODELS.SEGMENT_IMAGE
        (obj [("image_url", VStr "https://example.com/a.png")]) (Num 120000)],
     Ok {| text := "Segmentation complete." ++ nl ++ nl ++ "Raw result:" ++ nl ++ "{}";
           isError := false |})
  /\ count is_write
       (fst (callTool quiet_host default_config (createFalClient default_config)
               "segment_image" (obj [("image_url", VStr "https://example.com/a.png")])))
     = 0%nat.
Proof. split; reflexivity. Qed.

(* ================================================================== *)
(** ** End-to-end scenarios *)
(* ================================================================== *)

(** A: the upstream service returns one image; it is downloaded to the
    derived path, and the response names that path. *)
Example scenario_image_saved :
  callTool
    (host_with (Resolves (obj [("data",
       obj [("images", VArr [obj [("url", VStr "https://fal.media/a.png")]]);
            ("seed", VNum (Num 7))])])))
    default_config (createFalClient default_config)
    "generate_image" (obj [("prompt", VStr "a cat")])
  = ([ESubscribe MODELS.TEXT_TO_IMAGE (obj [("prompt", VStr "a cat")]) (Num 120000);
      EFetch (VStr "https://fal.media/a.png");
      EWriteFile "./generated-media/generated-2025-01-01T00-00-00-000Z.png" []],
     Ok {| text := "Image generated and saved to: "
                   ++ "./generated-media/generated-2025-01-01T00-00-00-000Z.png"
                   ++ nl ++ "Seed: 7";
           isError := false |}).
Proof. reflexivity. Qed.

(** B: the upstream service returns no image. *)
Example scenario_no_image :
  callTool
    (host_with (Resolves (obj [("data", obj [("images", VArr [])])])))
    default_config (createFalClient default_config)
    "generate_image" (obj [("prompt", VStr "a cat")])
  = ([ESubscribe MODELS.TEXT_TO_IMAGE (obj [("prompt", VStr "a cat")]) (Num 120000)],
     Ok {| text := "No image was generated. Try rephrasing your prompt.";
           isError := true |}).
Proof. reflexivity. Qed.

(** C: the timer fires first. *)
Example scenario_timeout :
  callTool (host_with TimerFirst) default_config (createFalClient default_config)
    "text_to_video" (obj [("prompt", VStr "a dragon")])
  = ([ESubscribe MODELS.TEXT_TO_VIDEO (obj [("prompt", VStr "a dragon")])
        (Num (120000 * 5))],
     Ok {| text := msg_timeout; isError := true |}).
Proof. reflexivity. Qed.

(** D: the required prompt is missing. *)
Example scenario_missing_prompt :
  callTool quiet_host default_config (createFalClient default_config)
    "generate_image" (obj [])
  = ([], Ok {| text := "fal.ai API error: []"; isError := true |}).
Proof. reflexivity. Qed.

Example scenario_unknown_tool :
  callTool quiet_host default_config (createFalClient default_config)
    "make_coffee" (obj [])
  = ([], Ok {| text := "fal.ai API error: Unknown tool: make_coffee"; isError := true |}).
Proof. reflexivity. Qed.

Example parseInt_examples :
  parseInt "  42px" = Num 42 /\ parseInt "-7" = Num (-7) /\ parseInt "abc" = NaN
  /\ parseInt "" = NaN /\ parseInt "+" = NaN.
Proof. repeat split. Qed.

Example loadConfig_rejects_zero :
  loadConfig {| FAL_KEY := Some "key"; FAL_OUTPUT_DIR := None; FAL_TIMEOUT := Some "0" |}
  = Throw (newError "FAL_TIMEOUT must be a positive number").
Proof. reflexivity. Qed.

(* ================================================================== *)
(** ** Catalogue and validator *)
(* ================================================================== *)

Lemma schema_of_enforced (t : tool) :
  schema_of t = map (enforced (inputSchema_required t)) (inputSchema_properties t).
Proof. destruct t; reflexivity. Qed.

(** X1. The validator is the catalogue, enforced: for every tool, the zod
    shape of its case has the properties of its [inputSchema], in the
    same order, each with the type, integrality and bounds the catalogue
    advertises; the [required] names are the non-optional keys (strings
    that must be non-empty); the enumerations are not enforced. *)
Theorem validator_matches_catalogue (t : tool) :
  schema_of t = map (enforced (inputSchema_required t)) (inputSchema_properties t).
Proof. destruct t; reflexivity. Qed.

Lemma flat_map_nil_inv {A B} (f : A -> list B) (l : list A) :
  flat_map f l = [] -> forall x, In x l -> f x = [].
Proof.
  induction l as [|a l IH]; simpl; [contradiction|].
  intros H x [<-|Hx].
  - now apply app_eq_nil in H.
  - apply IH; [now apply app_eq_nil in H | exact Hx].
Qed.

(** What [safeParse] has checked when it accepts: the argument bag is an
    object and every key of the shape passes its schema. *)
Lemma safeParse_accepts (sh : shape) (args : value) (input : list (string * value)) :
  safeParse sh args = inr input ->
  exists p fs,
    args = VObj p fs
    /\ (forall k s, In (k, s) sh -> validate s [k] (lookup k fs) = [])
    /\ input = flat_map (fun kv =>
                 if has_key (fst kv) fs then [(fst kv, lookup (fst kv) fs)] else []) sh.
Proof.
  destruct args; simpl; try discriminate.
  destruct (flat_map _ sh) eqn:Hfm; [|discriminate].
  intros H. injection H as <-. exists p, fields. repeat split.
  intros k s Hin. exact (flat_map_nil_inv _ _ Hfm (k, s) Hin).
Qed.

Lemma parsed_lookup_absent (sh : shape) (fs : list (string * value)) (k : string) :
  has_key k fs = false ->
  lookup k (flat_map (fun kv =>
     if has_key (fst kv) fs then [(fst kv, lookup (fst kv) fs)] else []) sh) = VUndefined.
Proof.
  intros Hk. induction sh as [|[k' s] sh IH]; [reflexivity|].
  cbn [flat_map fst]. destruct (has_key k' fs) eqn:Hk'; cbn [app lookup]; [|exact IH].
  destruct (String.eqb_spec k k') as [->|]; [congruence | exact IH].
Qed.

Lemma parsed_lookup (sh : shape) (fs : list (string * value)) (k : string) :
  In k (map fst sh) ->
  lookup k (flat_map (fun kv =>
     if has_key (fst kv) fs then [(fst kv, lookup (fst kv) fs)] else []) sh) = lookup k fs.
Proof.
  destruct (has_key k fs) eqn:Hk.
  2:{ intros _. rewrite (lookup_absent k fs Hk). now apply parsed_lookup_absent. }
  induction sh as [|[k' s] sh IH]; [contradiction|].
  cbn [map fst flat_map]. intros [->|Hin].
  - rewrite Hk. cbn [app lookup]. now rewrite String.eqb_refl.
  - destruct (has_key k' fs); cbn [app lookup]; [|exact (IH Hin)].
    destruct (String.eqb_spec k k') as [->|]; [reflexivity | exact (IH Hin)].
Qed.

Lemma parsed_keys (sh : shape) (fs : list (string * value)) (k : string) :
  has_key k (flat_map (fun kv =>
     if has_key (fst kv) fs then [(fst kv, lookup (fst kv) fs)] else []) sh) = true ->
  In k (map fst sh) /\ has_key k fs = true.
Proof.
  unfold has_key at 1. induction sh as [|[k' s] sh IH]; [discriminate|].
  cbn [flat_map fst map]. destruct (has_key k' fs) eqn:Hk'; cbn [app map existsb fst].
  - destruct (String.eqb_spec k k') as [->|]; cbn [orb].
    + intros _. split; [now left | exact Hk'].
    + intros H. destruct (IH H). split; [now right | assumption].
  - intros H. destruct (IH H). split; [now right | assumption].
Qed.

(** A required string passes exactly when it is a non-empty string. *)
Lemma validate_required_string (path : list string) (v : value) :
  validate (string_ [c_min 1]) path v = [] <-> exists s, v = VStr s /\ s <> "".
Proof.
  split.
  - destruct v; try discriminate. destruct s; [discriminate|].
    intros _. eexists. split; [reflexivity | discriminate].
  - intros (s & -> & Hs). destruct s as [|c s]; [contradiction|].
    cbn [validate flat_map run_check app]. unfold Qlt_bool.
    replace (Qle_bool 1 (inject_Z (Z.of_nat (String.length (String c s))))) with true;
      [reflexivity|].
    symmetry. apply Qle_bool_iff. unfold Qle. cbn [Qnum Qden inject_Z String.length].
    lia.
Qed.

Lemma run_check_holds (path : list string) (q : Q) (c : check) :
  run_check path q c = [] <-> check_holds q c.
Proof.
  destruct c as [|m|m]; cbn [run_check check_holds]; unfold Qlt_bool.
  - destruct (isInteger q); split; congruence.
  - rewrite <- Qle_bool_iff. destruct (Qle_bool m q); cbn [negb]; split; congruence.
  - rewrite <- Qle_bool_iff. destruct (Qle_bool q m); cbn [negb]; split; congruence.
Qed.

(** A number passes exactly when it is a finite number that satisfies
    every check of the schema. *)
Lemma validate_number (path : list string) (checks : list check) (v : value) :
  validate (number_ checks) path v = []
  <-> exists q, v = VNum (Num q) /\ Forall (check_holds q) checks.
Proof.
  split.
  - destruct v as [| | |[|q]| | |]; try discriminate. cbn [validate].
    intros H. exists q. split; [reflexivity|].
    apply Forall_forall. intros c Hc. apply (run_check_holds path).
    exact (flat_map_nil_inv _ _ H c Hc).
  - intros (q & -> & Hall). cbn [validate].
    induction Hall as [|c cs Hc _ IH]; [reflexivity|].
    cbn [flat_map]. rewrite (proj2 (run_check_holds path q c) Hc). exact IH.
Qed.

Lemma bounds_hold (p : property) (q : Q) :
  Forall (check_holds q) (bounds_of p) ->
  (forall m, minimum p = Some m -> (m <= q)%Q)
  /\ (forall m, maximum p = Some m -> (q <= m)%Q).
Proof.
  unfold bounds_of. destruct (minimum p), (maximum p); cbn [app]; intros H;
    repeat match goal with
    | H : Forall _ (_ :: _) |- _ => inversion H; subst; clear H
    end;
    split; intros m Hm; try discriminate; injection Hm as <-; assumption.
Qed.

(** X2. Validated arguments keep what the catalogue advertises: every
    required field is a non-empty string; every other field of the
    record is absent or has its declared type, and a number is an integer
    where declared and lies within the declared bounds; the record has
    no key outside the catalogue. *)
Theorem validated_args_invariant (t : tool) (args : value)
    (input : list (string * value)) :
  safeParse (schema_of t) args = inr input ->
  (forall f, In f (inputSchema_required t) ->
     exists s, lookup f input = VStr s /\ s <> "")
  /\ (forall k p, In (k, p) (inputSchema_properties t) ->
        lookup k input = VUndefined
        \/ (ptype p = JString /\ exists s, lookup k input = VStr s)
        \/ (ptype p <> JString
            /\ exists q, lookup k input = VNum (Num q)
               /\ (ptype p = JInteger -> isInteger q = true)
               /\ (forall m, minimum p = Some m -> (m <= q)%Q)
               /\ (forall m, maximum p = Some m -> (q <= m)%Q)))
  /\ (forall k, has_key k input = true -> In k (map fst (inputSchema_properties t))).
Proof.
  intros Hparse.
  destruct (safeParse_accepts _ _ _ Hparse) as (pr & fs & -> & Hvalid & ->).
  assert (Hkeys : map fst (schema_of t) = map fst (inputSchema_properties t)).
  { rewrite schema_of_enforced, map_map. apply map_ext.
    intros [k p]. reflexivity. }
  split; [|split].
  - intros f Hf. pose proof (required_in_schema t f Hf) as Hin.
    rewrite parsed_lookup by (apply (in_map fst) in Hin; exact Hin).
    apply (validate_required_string [f]). exact (Hvalid _ _ Hin).
  - intros k p Hin.
    assert (Hs : In (enforced (inputSchema_required t) (k, p)) (schema_of t)).
    { rewrite schema_of_enforced. now apply in_map. }
    rewrite parsed_lookup by (rewrite Hkeys; apply (in_map fst) in Hin; exact Hin).
    cbn [enforced] in Hs. specialize (Hvalid _ _ Hs).
    destruct (lookup k fs) eqn:Hv; [now left | right ..];
      destruct (existsb (String.eqb k) (inputSchema_required t));
      destruct (ptype p) eqn:Hp; cbn [validate] in Hvalid; try discriminate Hvalid;
      try (left; split; [reflexivity | eexists; reflexivity]);
      destruct n as [|q]; try discriminate Hvalid;
      right; (split; [discriminate|]); exists q; (split; [reflexivity|]);
      pose proof (flat_map_nil_inv _ _ Hvalid) as Hc;
      (assert (Hall : Forall (check_holds q) (bounds_of p))
        by (apply Forall_forall; intros c Hin'; apply (run_check_holds [k]);
            apply Hc; cbn [In]; auto));
      destruct (bounds_hold p q Hall) as [Hlo Hhi];
      repeat split; auto; try discriminate;
      intros _; apply (run_check_holds [k] q c_int); apply Hc; now left.
  - intros k Hk. rewrite <- Hkeys. exact (proj1 (parsed_keys _ _ _ Hk)).
Qed.

Lemma validated_args_invariant_witness :
  (exists s, lookup "prompt"
               [("prompt", VStr "a cat"); ("num_images", VNum (Num 2))] = VStr s
             /\ s <> "")
  /\ has_key "debug" [("prompt", VStr "a cat"); ("num_images", VNum (Num 2))] = false.
Proof.
  destruct (validated_args_invariant generate_image
              (obj [("num_images", VNum (Num 2)); ("debug", VBool true);
                    ("prompt", VStr "a cat")])
              [("prompt", VStr "a cat"); ("num_images", VNum (Num 2))] eq_refl)
    as (Hreq & _ & _).
  split; [apply Hreq; now left | reflexivity].
Defined.

Lemma flat_map_agree {A B} (f g : A -> list B) (l : list A) :
  (forall x, In x l -> f x = g x) -> flat_map f l = flat_map g l.
Proof.
  induction l as [|a l IH]; [reflexivity|]. intros H. cbn [flat_map].
  rewrite (H a (or_introl eq_refl)), IH; [reflexivity|].
  intros x Hx. apply H. now right.
Qed.

Lemma safeParse_agree (sh : shape) (p p' : proto) (fs fs' : list (string * value)) :
  (forall k, In k (map fst sh) ->
     lookup k fs = lookup k fs' /\ has_key k fs = has_key k fs') ->
  safeParse sh (VObj p fs) = safeParse sh (VObj p' fs').
Proof.
  intros Hagree. cbn [safeParse].
  assert (Hissues :
    flat_map (fun kv => validate (snd kv) [fst kv] (lookup (fst kv) fs)) sh
    = flat_map (fun kv => validate (snd kv) [fst kv] (lookup (fst kv) fs')) sh).
  { apply flat_map_agree. intros [k s] Hin. cbn [fst snd].
    apply (in_map fst) in Hin. now rewrite (proj1 (Hagree k Hin)). }
  assert (Hout :
    flat_map (fun kv => if has_key (fst kv) fs then [(fst kv, lookup (fst kv) fs)] else []) sh
    = flat_map (fun kv => if has_key (fst kv) fs' then [(fst kv, lookup (fst kv) fs')] else []) sh).
  { apply flat_map_agree. intros [k s] Hin. cbn [fst snd].
    apply (in_map fst) in Hin. destruct (Hagree k Hin) as [-> ->]. reflexivity. }
  now rewrite Hissues, Hout.
Qed.

(** X3. Unrecognised fields are ignored, and so is the order of the
    fields: two argument bags that agree on the fields of the tool's
    catalogue entry get the same invocation, effects and response. *)
Theorem unknown_fields_ignored (h : Host) (config : Config) (client : FalClient)
    (t : tool) (p p' : proto) (fs fs' : list (string * value)) :
  (forall k, In k (map fst (inputSchema_properties t)) ->
     lookup k fs = lookup k fs' /\ has_key k fs = has_key k fs') ->
  callTool h config client (name_of t) (VObj p fs)
  = callTool h config client (name_of t) (VObj p' fs').
Proof.
  intros Hagree.
  assert (Hparse : safeParse (schema_of t) (VObj p fs) = safeParse (schema_of t) (VObj p' fs')).
  { apply safeParse_agree. intros k Hk. apply Hagree.
    rewrite schema_of_enforced, map_map in Hk.
    erewrite map_ext in Hk; [exact Hk|]. intros [k' p0]. reflexivity. }
  unfold callTool. rewrite tool_of_name_name_of. unfold handle_case, parse.
  now rewrite Hparse.
Qed.

Lemma unknown_fields_ignored_witness :
  callTool quiet_host default_config (createFalClient default_config)
    (name_of remove_background)
    (obj [("verbose", VBool true); ("image_url", VStr "https://example.com/a.png")])
  = callTool quiet_host default_config (createFalClient default_config)
      (name_of remove_background)
      (obj [("image_url", VStr "https://example.com/a.png")]).
Proof.
  apply unknown_fields_ignored. intros k [<-|[<-|[]]]; split; reflexivity.
Defined.

Lemma safeParse_rejects (sh : shape) (args : value) :
  (forall p fs, args = VObj p fs ->
     exists k s, In (k, s) sh /\ validate s [k] (lookup k fs) <> []) ->
  exists issue issues, safeParse sh args = inl (issue :: issues).
Proof.
  intros Hbad. destruct args; cbn [safeParse]; eauto.
  destruct (Hbad p fields eq_refl) as (k & s & Hin & Hne).
  destruct (flat_map _ sh) as [|issue issues] eqn:Hfm; [exfalso | eauto].
  apply Hne. exact (flat_map_nil_inv _ _ Hfm (k, s) Hin).
Qed.

(** X4. An argument bag that is not an object, or that has a field
    failing its schema (wrong type, empty required string, number out of
    bounds or not an integer), ends the invocation in an error-flagged
    response carrying the classified ZodError, before anything happens
    outside: the trace is empty. *)
Theorem invalid_arguments_no_effect (h : Host) (config : Config) (client : FalClient)
    (t : tool) (args : value) :
  (forall p fs, args = VObj p fs ->
     exists k s, In (k, s) (schema_of t) /\ validate s [k] (lookup k fs) <> []) ->
  exists issues msg,
    safeParse (schema_of t) args = inl issues
    /\ handleError h (ZodError h issues) = Ok (newError msg)
    /\ callTool h config client (name_of t) args
       = ([], Ok {| text := msg; isError := true |}).
Proof.
  intros Hbad.
  destruct (safeParse_rejects (schema_of t) args Hbad) as (issue & issues & Hparse).
  destruct (catch_object h (ZodError h (issue :: issues)) eq_refl) as (msg & Hmsg & Hcatch).
  exists (issue :: issues), msg. repeat split; auto.
  unfold callTool. rewrite tool_of_name_name_of.
  rewrite (handle_case_invalid h config client t args _ Hparse).
  cbn [try_catch]. now rewrite Hcatch.
Qed.

Lemma invalid_arguments_no_effect_witness :
  exists msg,
    callTool quiet_host default_config (createFalClient default_config)
      (name_of generate_image)
      (obj [("prompt", VStr "a cat"); ("num_images", VNum (Num 5))])
    = ([], Ok {| text := msg; isError := true |}).
Proof.
  destruct (invalid_arguments_no_effect quiet_host default_config
              (createFalClient default_config) generate_image
              (obj [("prompt", VStr "a cat"); ("num_images", VNum (Num 5))]))
    as (issues & msg & _ & _ & Hcall).
  - intros p fs Heq. injection Heq as _ <-.
    exists "num_images", (optional (number_ [c_int; c_min 1; c_max 4])).
    split; [cbn; auto | discriminate].
  - exists msg. exact Hcall.
Defined.

(** X5. The enumerations of the catalogue are advertised, not enforced:
    a property that declares an [enum] is validated as an optional
    string, and every string passes. *)
Theorem enum_not_enforced (t : tool) (k : string) (p : property) :
  In (k, p) (inputSchema_properties t) ->
  enum p <> [] ->
  In (k, optional (string_ [])) (schema_of t)
  /\ forall path s, validate (optional (string_ [])) path (VStr s) = [].
Proof.
  intros Hin Henum. split; [|reflexivity].
  assert (Hs : In (enforced (inputSchema_required t) (k, p)) (schema_of t)).
  { rewrite schema_of_enforced. now apply in_map. }
  destruct t; cbn [inputSchema_properties In] in Hin;
    repeat match goal with
    | H : _ \/ _ |- _ => destruct H as [H|H]
    | H : False |- _ => contradiction
    | H : (_, _) = (k, p) |- _ => injection H as <- <-
    end;
    try (exfalso; apply Henum; reflexivity); exact Hs.
Qed.

Lemma enum_not_enforced_witness :
  In ("output_format", optional (string_ [])) (schema_of generate_image)
  /\ forall path s, validate (optional (string_ [])) path (VStr s) = [].
Proof.
  apply (enum_not_enforced generate_image "output_format" (p_enum ["png"; "jpeg"])).
  - cbn. auto 10.
  - discriminate.
Defined.

(* ================================================================== *)
(** ** Reading the timeout *)
(* ================================================================== *)















(** X8. The credential is checked first: without a non-empty [FAL_KEY],
    [loadConfig] fails with the credential error whatever the other
    variables hold; and when it returns, the credential is that key, and
    neither the credential nor the output directory is empty. *)
Theorem loadConfig_credential (env : ProcessEnv) :
  (env_truthy (FAL_KEY env) = None ->
     loadConfig env
     = Throw (newError
         "fal.ai API key not configured. Please set the FAL_KEY environment variable."))
  /\ (forall c, loadConfig env = Ok c ->
        FAL_KEY env = Some (apiKey c) /\ apiKey c <> "" /\ outputDir c <> "").
Proof.
  split.
  - intros H. unfold loadConfig. now rewrite H.
  - intros c. unfold loadConfig.
    destruct (FAL_KEY env) as [key|] eqn:Hkey; cbn [env_truthy]; [|discriminate].
    destruct (String.eqb_spec key ""); [discriminate|].
    destruct (le0 _); [discriminate|]. intros H. injection H as <-. cbn [apiKey outputDir].
    repeat split; auto.
    destruct (FAL_OUTPUT_DIR env) as [d|]; cbn [env_truthy]; [|discriminate].
    destruct (String.eqb_spec d ""); [discriminate | assumption].
Qed.

Lemma loadConfig_credential_witness :
  loadConfig {| FAL_KEY := Some ""; FAL_OUTPUT_DIR := None; FAL_TIMEOUT := Some "0" |}
  = Throw (newError
      "fal.ai API key not configured. Please set the FAL_KEY environment variable.").
Proof.
  exact (proj1 (loadConfig_credential
                  {| FAL_KEY := Some ""; FAL_OUTPUT_DIR := None; FAL_TIMEOUT := Some "0" |})
               eq_refl).
Defined.

(* ================================================================== *)
(** ** The shape probes of the extractors *)
(* ================================================================== *)

Lemma get_opt_nested (data : value) (k : string) :
  nullish data = false ->
  exc_bind (get data k) (fun v => get_opt v "url") = Ok (nested_url data k).
Proof.
  intros Hn. rewrite (get_prop data k Hn). cbn [exc_bind]. apply get_opt_prop.
Qed.

Lemma first_truthy_result (probes : list value) :
  first_truthy probes = VNull /\ Forall (fun v => truthy v = false) probes
  \/ truthy (first_truthy probes) = true /\ In (first_truthy probes) probes.
Proof.
  induction probes as [|v probes [[IHn IHf]|[IHt IHi]]]; cbn [first_truthy].
  - left. split; [reflexivity | constructor].
  - destruct (truthy v) eqn:Hv.
    + right. split; [exact Hv | now left].
    + left. split; [exact IHn | now constructor].
  - destruct (truthy v) eqn:Hv; right.
    + split; [exact Hv | now left].
    + split; [exact IHt | now right].
Qed.

Ltac probe_chain Hn :=
  repeat first
    [ rewrite (get_prop _ _ Hn); cbn [exc_bind]
    | rewrite get_opt_prop; cbn [exc_bind]
    | match goal with
      | |- context [if truthy ?v then _ else _] => destruct (truthy v)
      end ];
  reflexivity.

Lemma extractVideoUrl_probes (data : value) :
  nullish data = false ->
  extractVideoUrl data
  = Ok (first_truthy [nested_url data "video"; prop data "video_url";
                      nested_url data "output"; prop data "url"]).
Proof.
  intros Hn. unfold extractVideoUrl, nested_url. cbn [first_truthy]. probe_chain Hn.
Qed.

Lemma extractAudioUrl_probes (data : value) :
  nullish data = false ->
  extractAudioUrl data
  = Ok (first_truthy [nested_url data "audio"; prop data "audio_url";
                      nested_url data "audio_file"; nested_url data "output";
                      prop data "url"]).
Proof.
  intros Hn. unfold extractAudioUrl, nested_url. cbn [first_truthy]. probe_chain Hn.
Qed.

Lemma extract3DUrl_probes (data : value) :
  nullish data = false ->
  extract3DUrl data
  = Ok (first_truthy [nested_url data "model"; prop data "model_url";
                      nested_url data "mesh"; nested_url data "output";
                      nested_url data "glb"; prop data "url"]).
Proof.
  intros Hn. unfold extract3DUrl, nested_url. cbn [first_truthy]. probe_chain Hn.
Qed.

Lemma extractImageUrls_probes (data : value) :
  nullish data = false ->
  isArray (prop data "images") = false ->
  extractImageUrls data
  = Ok (let url := first_truthy [nested_url data "image"; prop data "image_url";
                                 nested_url data "output"; prop data "url"] in
        if truthy url then [url] else []).
Proof.
  intros Hn Harr. unfold extractImageUrls, nested_url.
  rewrite (get_prop _ _ Hn). cbn [exc_bind]. rewrite Harr, andb_false_r.
  cbv zeta. cbn [first_truthy].
  repeat first
    [ rewrite (get_prop _ _ Hn); cbn [exc_bind]
    | rewrite get_opt_prop; cbn [exc_bind]
    | match goal with
      | |- context [if truthy ?v then Ok _ else _] => destruct (truthy v) eqn:?
      end ];
  repeat match goal with H : truthy _ = _ |- _ => rewrite H end; reflexivity.
Qed.

(** X9. [extractVideoUrl] on an object payload: the first truthy one of
    [video.url], [video_url], [output.url], [url], in this order, and
    [null] when none is truthy; so the result is [null] or a truthy
    value of the payload. *)
Theorem extractVideoUrl_priority (data : value) :
  nullish data = false ->
  extractVideoUrl data
  = Ok (first_truthy [nested_url data "video"; prop data "video_url";
                      nested_url data "output"; prop data "url"]).
Proof. exact (extractVideoUrl_probes data). Qed.

Lemma extractVideoUrl_priority_witness :
  extractVideoUrl
    (obj [("url", VStr "c"); ("video", obj [("url", VStr "")]); ("video_url", VStr "b")])
  = Ok (VStr "b").
Proof.
  exact (extractVideoUrl_priority
           (obj [("url", VStr "c"); ("video", obj [("url", VStr "")]);
                 ("video_url", VStr "b")]) eq_refl).
Defined.

(** X10. [extractAudioUrl] on an object payload: the first truthy one of
    [audio.url], [audio_url], [audio_file.url], [output.url], [url], and
    [null] when none is truthy. *)
Theorem extractAudioUrl_priority (data : value) :
  nullish data = false ->
  extractAudioUrl data
  = Ok (first_truthy [nested_url data "audio"; prop data "audio_url";
                      nested_url data "audio_file"; nested_url data "output";
                      prop data "url"]).
Proof. exact (extractAudioUrl_probes data). Qed.

Lemma extractAudioUrl_priority_witness :
  extractAudioUrl
    (obj [("output", obj [("url", VStr "o")]); ("audio_file", obj [("url", VStr "f")])])
  = Ok (VStr "f").
Proof.
  exact (extractAudioUrl_priority
           (obj [("output", obj [("url", VStr "o")]);
                 ("audio_file", obj [("url", VStr "f")])]) eq_refl).
Defined.

(** X11. [extract3DUrl] on an object payload: the first truthy one of
    [model.url], [model_url], [mesh.url], [output.url], [glb.url],
    [url]; the generic [output] wrapper is probed before the
    [glb]-specific field. *)
Theorem extract3DUrl_priority (data : value) :
  nullish data = false ->
  extract3DUrl data
  = Ok (first_truthy [nested_url data "model"; prop data "model_url";
                      nested_url data "mesh"; nested_url data "output";
                      nested_url data "glb"; prop data "url"]).
Proof. exact (extract3DUrl_probes data). Qed.

Lemma extract3DUrl_priority_witness :
  extract3DUrl
    (obj [("glb", obj [("url", VStr "g")]); ("output", obj [("url", VStr "o")])])
  = Ok (VStr "o").
Proof.
  exact (extract3DUrl_priority
           (obj [("glb", obj [("url", VStr "g")]); ("output", obj [("url", VStr "o")])])
           eq_refl).
Defined.

(** X12. [extractImageUrls] on an object payload whose [images] field is
    not an array: at most one URL, the first truthy one of [image.url],
    [image_url], [output.url], [url]. *)
Theorem extractImageUrls_fallback (data : value) :
  nullish data = false ->
  isArray (prop data "images") = false ->
  extractImageUrls data
  = Ok (let url := first_truthy [nested_url data "image"; prop data "image_url";
                                 nested_url data "output"; prop data "url"] in
        if truthy url then [url] else []).
Proof. exact (extractImageUrls_probes data). Qed.

Lemma extractImageUrls_fallback_witness :
  extractImageUrls
    (obj [("images", VStr "none"); ("url", VStr "u"); ("image_url", VStr "i")])
  = Ok [VStr "i"].
Proof.
  exact (extractImageUrls_fallback
           (obj [("images", VStr "none"); ("url", VStr "u"); ("image_url", VStr "i")])
           eq_refl eq_refl).
Defined.

Lemma mapImages_truthy (l urls : list value) :
  mapImages l = Ok urls -> Forall (fun u => truthy u = true) urls.
Proof.
  unfold mapImages. destruct (exc_mapM _ l) as [mapped|e]; [|discriminate].
  cbn [exc_bind]. intros H. injection H as <-.
  apply Forall_forall. intros u Hu. now apply filter_In in Hu.
Qed.

(** X13. Every URL that [extractImageUrls] returns is truthy, whatever
    the payload: [urls[0]], when there is one, is never an empty string,
    [null] or [undefined]. *)
Theorem extractImageUrls_truthy (data : value) (urls : list value) :
  extractImageUrls data = Ok urls -> Forall (fun u => truthy u = true) urls.
Proof.
  destruct data as [| | b|n|s|l|p fs]; try discriminate.
  1-4: intros H; rewrite extractImageUrls_probes in H by reflexivity;
       cbn in H; injection H as <-; constructor.
  destruct (isArray (prop (VObj p fs) "images")) eqn:Harr.
  - destruct (prop (VObj p fs) "images") as [| | | | |l|] eqn:Himg; try discriminate.
    rewrite (extractImageUrls_array (VObj p fs) l) by (cbn in *; now rewrite Himg).
    apply mapImages_truthy.
  - rewrite extractImageUrls_probes by auto. cbv zeta.
    destruct (truthy (first_truthy _)) eqn:Ht; intros H; injection H as <-;
      repeat constructor. exact Ht.
Qed.

Lemma extractImageUrls_truthy_witness :
  Forall (fun u => truthy u = true) [VStr "a"].
Proof.
  exact (extractImageUrls_truthy
           (obj [("images", VArr [VStr ""; obj [("url", VStr "a")]; VNum (Num 0)])])
           [VStr "a"] eq_refl).
Defined.

(** X14. The single-URL extractors raise on a payload that is
    [undefined] or [null], and only then. *)
Theorem url_extractors_raise_iff_nullish (data : value) :
  ((exists e, extractVideoUrl data = Throw e) <-> nullish data = true)
  /\ ((exists e, extractAudioUrl data = Throw e) <-> nullish data = true)
  /\ ((exists e, extract3DUrl data = Throw e) <-> nullish data = true).
Proof.
  destruct (nullish data) eqn:Hn.
  - destruct data; try discriminate Hn; repeat split; intros; eauto;
      eexists; reflexivity.
  - rewrite (extractVideoUrl_probes data Hn), (extractAudioUrl_probes data Hn),
      (extract3DUrl_probes data Hn).
    repeat split; try discriminate; intros [e He]; discriminate He.
Qed.

(* ================================================================== *)
(** ** The dispatcher: names, failures and the upstream call *)
(* ================================================================== *)

(** X15. The switch finds a tool by its catalogue name and by nothing
    else: looking up the name of a tool gives that tool back, a name
    that is found is the name of the tool found, and the 22 names are
    pairwise distinct. *)
Theorem tool_lookup_roundtrip :
  (forall t, tool_of_name (name_of t) = Some t)
  /\ (forall name t, tool_of_name name = Some t -> name = name_of t)
  /\ NoDup (map name_of all_tools)
  /\ List.length all_tools = 22%nat
  /\ (forall t, In t all_tools).
Proof.
  split; [intros t; destruct t; reflexivity|].
  split; [exact tool_of_name_sound|].
  split.
  - assert (Hinj : forall a b, name_of a = name_of b -> a = b).
    { intros a b H. assert (Some a = Some b) as [= ->]; [|reflexivity].
      rewrite <- (tool_of_name_name_of a), <- (tool_of_name_name_of b). now rewrite H. }
    cbn [all_tools map].
    repeat (constructor;
            [cbn [In]; intros Hin;
             repeat (destruct Hin as [Hin|Hin]; [apply Hinj in Hin; discriminate Hin|]);
             exact Hin|]).
    constructor.
  - split; [reflexivity|]. intros t; destruct t; cbn; auto 25.
Qed.

(** X16. A name outside the catalogue is answered with an error-flagged
    [Unknown tool] message, and nothing happens outside. *)
Theorem unknown_tool_response (h : Host) (config : Config) (client : FalClient)
    (name : string) (args : value) :
  tool_of_name name = None ->
  callTool h config client name args
  = ([], Ok {| text := "fal.ai API error: Unknown tool: " ++ name; isError := true |}).
Proof.
  intros Hname. unfold callTool. rewrite Hname. reflexivity.
Qed.

Lemma unknown_tool_response_witness :
  callTool quiet_host default_config (createFalClient default_config)
    "generate_gif" (obj [("prompt", VStr "a cat")])
  = ([], Ok {| text := "fal.ai API error: Unknown tool: generate_gif"; isError := true |}).
Proof.
  exact (unknown_tool_response quiet_host default_config (createFalClient default_config)
           "generate_gif" (obj [("prompt", VStr "a cat")]) eq_refl).
Defined.

(** X17. There is no retry and no speculative call: an invocation makes
    exactly one upstream call when the tool is known and its arguments
    validate, and none otherwise, however the call and the download
    end. *)
Theorem upstream_call_count (h : Host) (config : Config) (client : FalClient)
    (name : string) (args : value) :
  count is_subscribe (fst (callTool h config client name args))
  = match tool_of_name name with
    | Some t =>
        match safeParse (schema_of t) args with
        | inr _ => 1%nat
        | inl _ => 0%nat
        end
    | None => 0%nat
    end.
Proof.
  destruct (tool_of_name name) as [t|] eqn:Hname.
  - apply tool_of_name_sound in Hname. subst name.
    destruct (safeParse (schema_of t) args) as [issues|input] eqn:Hparse.
    + unfold callTool. rewrite tool_of_name_name_of.
      rewrite (handle_case_invalid h config client t args issues Hparse).
      cbn [try_catch]. destruct (catch_spec h (ZodError h issues)) as (r & -> & _).
      reflexivity.
    + destruct (callTool_trace h config client t args input Hparse)
        as (model & rest & -> & Hrest).
      change (ESubscribe ?m ?i ?b :: rest)%list with ([ESubscribe m i b] ++ rest)%list.
      rewrite count_app, Hrest. reflexivity.
  - unfold callTool. rewrite Hname. reflexivity.
Qed.

Lemma callTool_upstream_failure (h : Host) (config : Config) (client : FalClient)
    (t : tool) (args : value) (input : list (string * value))
    (tr : list event) (err : value) :
  safeParse (schema_of t) args = inr input ->
  client_call h client t (snd (rest_save_path input)) = (tr, Throw err) ->
  nullish err = false ->
  exists msg,
    handleError h err = Ok (newError msg)
    /\ callTool h config client (name_of t) args
       = (tr, Ok {| text := msg; isError := true |}).
Proof.
  intros Hparse Hcall Hn.
  destruct (catch_object h err Hn) as (msg & Hmsg & Hcatch).
  exists msg. split; [exact Hmsg|].
  unfold callTool. rewrite tool_of_name_name_of.
  rewrite (handle_case_parsed h config client t args input Hparse), Hcall.
  cbn [bind try_catch]. rewrite Hcatch, app_nil_r. reflexivity.
Qed.

(** X18. When the timer of the race fires first, the invocation ends
    with the timed-out message, error-flagged, for every tool; the only
    effect is the upstream call, raced against the budget of the tool. *)
Theorem timeout_response (h : Host) (config : Config) (client : FalClient)
    (t : tool) (args : value) (input : list (string * value)) :
  safeParse (schema_of t) args = inr input ->
  (forall model apiInput budget, fal_subscribe h model apiInput budget = TimerFirst) ->
  exists model,
    callTool h config client (name_of t) args
    = ([ESubscribe model (snd (rest_save_path input))
          (if runs_long t then times5 (this_timeout client) else this_timeout client)],
       Ok {| text := msg_timeout; isError := true |}).
Proof.
  intros Hparse Htimer.
  destruct (client_call_race h client t (snd (rest_save_path input))) as [model Hrace].
  rewrite race_spec, Htimer in Hrace.
  destruct (callTool_upstream_failure h config client t args input _ _ Hparse Hrace eq_refl)
    as (msg & Hmsg & Hcall).
  exists model. rewrite Hcall. injection Hmsg as <-. reflexivity.
Qed.

Lemma timeout_response_witness :
  exists model,
    callTool (host_with TimerFirst) default_config (createFalClient default_config)
      (name_of image_to_3d) (obj [("image_url", VStr "https://example.com/a.png")])
    = ([ESubscribe model (obj [("image_url", VStr "https://example.com/a.png")])
          (Num (120000 * 5))],
       Ok {| text := msg_timeout; isError := true |}).
Proof.
  exact (timeout_response (host_with TimerFirst) default_config
           (createFalClient default_config) image_to_3d
           (obj [("image_url", VStr "https://example.com/a.png")])
           [("image_url", VStr "https://example.com/a.png")]
           eq_refl (fun _ _ _ => eq_refl)).
Defined.

(** X19. When the upstream call is rejected with an error value, the
    invocation ends with the message [handleError] gives that error,
    error-flagged, and nothing is downloaded or written. *)
Theorem upstream_rejection_response (h : Host) (config : Config) (client : FalClient)
    (t : tool) (args : value) (input : list (string * value)) (err : value) :
  safeParse (schema_of t) args = inr input ->
  (forall model apiInput budget, fal_subscribe h model apiInput budget = Rejects err) ->
  nullish err = false ->
  exists model msg,
    handleError h err = Ok (newError msg)
    /\ callTool h config client (name_of t) args
       = ([ESubscribe model (snd (rest_save_path input))
             (if runs_long t then times5 (this_timeout client) else this_timeout client)],
          Ok {| text := msg; isError := true |}).
Proof.
  intros Hparse Hrej Hn.
  destruct (client_call_race h client t (snd (rest_save_path input))) as [model Hrace].
  rewrite race_spec, Hrej in Hrace.
  destruct (callTool_upstream_failure h config client t args input _ _ Hparse Hrace Hn)
    as (msg & Hmsg & Hcall).
  exists model, msg. split; assumption.
Qed.

Lemma upstream_rejection_response_witness :
  exists model msg,
    handleError
      (host_with (Rejects (VObj (PError "ApiError")
                             [("message", VStr "Too Many Requests");
                              ("status", VNum (Num 429))])))
      (VObj (PError "ApiError")
         [("message", VStr "Too Many Requests"); ("status", VNum (Num 429))])
    = Ok (newError msg)
    /\ callTool
         (host_with (Rejects (VObj (PError "ApiError")
                                [("message", VStr "Too Many Requests");
                                 ("status", VNum (Num 429))])))
         default_config (createFalClient default_config)
         (name_of text_to_speech) (obj [("text", VStr "hello")])
       = ([ESubscribe model (obj [("text", VStr "hello")]) (Num 120000)],
          Ok {| text := msg; isError := true |}).
Proof.
  exact (upstream_rejection_response
           (host_with (Rejects (VObj (PError "ApiError")
                                  [("message", VStr "Too Many Requests");
                                   ("status", VNum (Num 429))])))
           default_config (createFalClient default_config) text_to_speech
           (obj [("text", VStr "hello")]) [("text", VStr "hello")]
           (VObj (PError "ApiError")
              [("message", VStr "Too Many Requests"); ("status", VNum (Num 429))])
           eq_refl (fun _ _ _ => eq_refl) eq_refl).
Defined.

(* ================================================================== *)
(** ** The download, and the order of effects *)
(* ================================================================== *)

Ltac download_cases h url savePath :=
  unfold downloadFile, mkdirSync, await_fetch, writeFileSync;
  destruct (fs_existsSync h (path_dirname h savePath)) eqn:?;
    [|destruct (fs_mkdirSync h (path_dirname h savePath)) eqn:?];
    (destruct (fetch h url) as [[[] ? [?|?]]|?] eqn:?;
     cbn;
     try match goal with
         | |- context [fs_writeFileSync ?a ?b ?c] =>
             destruct (fs_writeFileSync a b c) eqn:?
         end);
    cbn.

(** X20. What [downloadFile] writes is what it fetched: a file is
    written only at the given path, only with the body of an [ok]
    response to the fetch of the given URL, and only when the call
    returns; the only URL fetched is the given one; a directory is
    created only when the parent of the path did not exist. *)
Theorem downloadFile_provenance (h : Host) (url : value) (savePath : string)
    (tr : list event) (r : exc string) :
  downloadFile h url savePath = (tr, r) ->
  (forall path data, In (EWriteFile path data) tr ->
     path = savePath /\ r = Ok savePath
     /\ exists response,
          fetch h url = Fulfilled response
          /\ ok response = true /\ arrayBuffer response = Ok data)
  /\ (forall u, In (EFetch u) tr -> u = url)
  /\ (forall dir, In (EMkdir dir) tr ->
        dir = path_dirname h savePath /\ fs_existsSync h dir = false)
  /\ (r = Ok savePath -> exists data, In (EWriteFile savePath data) tr).
Proof.
  download_cases h url savePath; intros H; injection H as <- <-;
    (split; [|split; [|split]]);
    try (intros ? ? Hin); try (intros ? Hin); try discriminate;
    cbn [In] in *;
    repeat match goal with
    | H : _ \/ _ |- _ => destruct H as [H|H]
    | H : False |- _ => contradiction
    | H : EWriteFile _ _ = EWriteFile _ _ |- _ => injection H as <- <-
    | H : EFetch _ = EFetch _ |- _ => injection H as <-
    | H : EMkdir _ = EMkdir _ |- _ => injection H as <-
    | H : _ = _ |- _ => discriminate H
    end;
    try (repeat split; eauto; fail);
    try (eexists; eauto; fail).
Qed.

Lemma downloadFile_provenance_witness :
  exists response,
    fetch quiet_host (VStr "https://fal.media/a.png") = Fulfilled response
    /\ ok response = true /\ arrayBuffer response = Ok [].
Proof.
  exact (proj2 (proj2 (proj1 (downloadFile_provenance quiet_host
                                (VStr "https://fal.media/a.png") "out/a.png"
                                [EFetch (VStr "https://fal.media/a.png");
                                 EWriteFile "out/a.png" []]
                                (Ok "out/a.png") eq_refl)
                         "out/a.png" [] (or_intror (or_introl eq_refl))))).
Defined.

(** X21. A response that is not [ok] makes [downloadFile] raise
    [Failed to download: <statusText>] once the directory is there,
    without writing; the dispatcher reports it under the generic
    prefix. *)
Theorem download_refused (h : Host) (url : value) (savePath : string)
    (response : Response) :
  (fs_existsSync h (path_dirname h savePath) = false ->
   fs_mkdirSync h (path_dirname h savePath) = None) ->
  fetch h url = Fulfilled response ->
  ok response = false ->
  exists tr,
    downloadFile h url savePath
    = (tr, Throw (newError ("Failed to download: " ++ statusText response)))
    /\ count is_write tr = 0%nat
    /\ handleError h (newError ("Failed to download: " ++ statusText response))
       = Ok (newError ("fal.ai API error: Failed to download: " ++ statusText response)).
Proof.
  intros Hdir Hfetch Hok. split with
    (if fs_existsSync h (path_dirname h savePath) then [EFetch url]
     else [EMkdir (path_dirname h savePath); EFetch url]).
  unfold downloadFile, mkdirSync, await_fetch. rewrite Hfetch.
  destruct (fs_existsSync h (path_dirname h savePath)); cbn [negb];
    [|rewrite (Hdir eq_refl)]; cbn; rewrite Hok; cbn; repeat split.
Qed.

Lemma download_refused_witness :
  exists tr,
    downloadFile
      {| Number_toString := Number_toString quiet_host;
         JSON_stringify := JSON_stringify quiet_host;
         ZodError_message := ZodError_message quiet_host;
         path_dirname := path_dirname quiet_host;
         path_resolve := path_resolve quiet_host;
         Date_toISOString := Date_toISOString quiet_host;
         fal_subscribe := fal_subscribe quiet_host;
         fs_existsSync := fun _ => false;
         fs_mkdirSync := fun _ => None;
         fetch := fun _ => Fulfilled {| ok := false; statusText := "Not Found";
                                        arrayBuffer := Ok [] |};
         fs_writeFileSync := fs_writeFileSync quiet_host |}
      (VStr "https://fal.media/gone.png") "out/a.png"
    = (tr, Throw (newError "Failed to download: Not Found")).
Proof.
  destruct (download_refused
              {| Number_toString := Number_toString quiet_host;
                 JSON_stringify := JSON_stringify quiet_host;
                 ZodError_message := ZodError_message quiet_host;
                 path_dirname := path_dirname quiet_host;
                 path_resolve := path_resolve quiet_host;
                 Date_toISOString := Date_toISOString quiet_host;
                 fal_subscribe := fal_subscribe quiet_host;
                 fs_existsSync := fun _ => false;
                 fs_mkdirSync := fun _ => None;
                 fetch := fun _ => Fulfilled {| ok := false; statusText := "Not Found";
                                                arrayBuffer := Ok [] |};
                 fs_writeFileSync := fs_writeFileSync quiet_host |}
              (VStr "https://fal.media/gone.png") "out/a.png"
              {| ok := false; statusText := "Not Found"; arrayBuffer := Ok [] |}
              (fun _ => eq_refl) eq_refl eq_refl) as (tr & Hrun & _).
  exists tr. exact Hrun.
Defined.

Lemma downloadFile_shape (h : Host) (url : value) (savePath : string) :
  download_shape (fst (downloadFile h url savePath)) = true.
Proof. download_cases h url savePath; reflexivity. Qed.

Lemma downloadFile_raises (h : Host) (url : value) (savePath : string)
    (tr : list event) (e : value) :
  raises_objects h ->
  downloadFile h url savePath = (tr, Throw e) -> nullish e = false.
Proof.
  intros Hh. download_cases h url savePath; intros H; inversion H; subst;
    try reflexivity;
    match goal with
    | H : fs_mkdirSync h _ = Some _ |- _ => exact (mkdir_raises h Hh _ _ H)
    | H : fetch h _ = Failed _ |- _ => exact (fetch_raises h Hh _ _ H)
    | H : fs_writeFileSync h _ _ = Some _ |- _ => exact (write_raises h Hh _ _ _ H)
    | H : fetch h _ = Fulfilled _ |- _ => exact (body_raises h Hh _ _ _ H eq_refl)
    end.
Qed.

Lemma get_raises (v : value) (k : string) (e : value) :
  get v k = Throw e -> nullish e = false.
Proof. destruct v; cbn; intros H; inversion H; reflexivity. Qed.

Lemma url_extractors_raise (data e : value) :
  extractVideoUrl data = Throw e \/ extractAudioUrl data = Throw e
  \/ extract3DUrl data = Throw e ->
  nullish e = false.
Proof.
  destruct (nullish data) eqn:Hn.
  - destruct data; try discriminate Hn; intros [H|[H|H]]; inversion H; reflexivity.
  - rewrite (extractVideoUrl_probes data Hn), (extractAudioUrl_probes data Hn),
      (extract3DUrl_probes data Hn).
    intros [H|[H|H]]; discriminate H.
Qed.

Lemma mapImages_raises (l : list value) (e : value) :
  mapImages l = Throw e -> nullish e = false.
Proof.
  unfold mapImages.
  assert (H : forall e, exc_mapM (fun img => u <- get img "url";; Ok (js_or u img)) l
                        = Throw e -> nullish e = false).
  { induction l as [|img l IH]; [discriminate|]. intros e0. cbn [exc_mapM].
    destruct (get img "url") eqn:Hg; cbn [exc_bind].
    - destruct (exc_mapM _ l); cbn [exc_bind]; [discriminate|].
      intros H. injection H as <-. now apply IH.
    - intros H. injection H as <-. exact (get_raises _ _ _ Hg). }
  destruct (exc_mapM _ l); cbn [exc_bind]; [discriminate|].
  intros He. injection He as <-. now apply H.
Qed.

Lemma extractImageUrls_raises (data e : value) :
  extractImageUrls data = Throw e -> nullish e = false.
Proof.
  destruct (nullish data) eqn:Hn.
  - destruct data; try discriminate Hn; intros H; inversion H; reflexivity.
  - destruct (isArray (prop data "images")) eqn:Harr.
    + destruct (prop data "images") as [| | | | |l|] eqn:Himg; try discriminate.
      rewrite (extractImageUrls_array data l) by (now rewrite (get_prop data _ Hn), Himg).
      apply mapImages_raises.
    + rewrite (extractImageUrls_probes data Hn Harr). discriminate.
Qed.

Lemma extractImageUrls_all_truthy (data : value) (urls : list value) :
  extractImageUrls data = Ok urls -> Forall (fun u => truthy u = true) urls.
Proof.
  destruct (nullish data) eqn:Hn.
  - destruct data; discriminate.
  - destruct (isArray (prop data "images")) eqn:Harr.
    + destruct (prop data "images") as [| | | | |l|] eqn:Himg; try discriminate.
      rewrite (extractImageUrls_array data l) by (now rewrite (get_prop data _ Hn), Himg).
      apply mapImages_truthy.
    + rewrite (extractImageUrls_probes data Hn Harr). cbv zeta.
      destruct (truthy (first_truthy _)) eqn:Ht; intros H; injection H as <-;
        repeat constructor. exact Ht.
Qed.

Lemma downloadFile_fetches (h : Host) (url : value) (savePath : string) (u : value) :
  In (EFetch u) (fst (downloadFile h url savePath)) -> u = url.
Proof.
  download_cases h url savePath; cbn [In]; intros Hin;
    repeat match goal with
    | H : _ \/ _ |- _ => destruct H as [H|H]
    | H : False |- _ => contradiction
    | H : EFetch _ = EFetch _ |- _ => injection H as <-
    | H : _ = _ |- _ => discriminate H
    end; reflexivity.
Qed.

Ltac respond_step :=
  match goal with
  | |- context [bind (lift ?m) _] =>
      destruct m eqn:?; [rewrite bind_lift_ok | rewrite bind_lift_throw]
  | |- context [match ?l with [] => _ | _ :: _ => _ end] =>
      is_var l; destruct l
  | |- context [if negb (truthy ?u) then _ else _] => destruct (truthy u) eqn:?
  | |- context [if truthy ?u then _ else _] => destruct (truthy u) eqn:?
  | |- context [bind (downloadFile ?h ?u ?p) _] =>
      let Hd := fresh "Hd" in
      pose proof (downloadFile_shape h u p);
      pose proof (downloadFile_fetches h u p);
      destruct (downloadFile h u p) as [? [?|?]] eqn:Hd
  end;
  cbn [bind success failure ret throw negb fst] in *.

(** What a case does after the upstream call: its effects are those
    of at most one download, of a truthy locator, and under a host that
    raises error values it raises error values. *)
Lemma respond_facts (h : Host) (config : Config) (t : tool)
    (input : list (string * value)) (save_path data : value)
    (tr : list event) (r : exc CallToolResult) :
  respond h config t input save_path data = (tr, r) ->
  download_shape tr = true
  /\ (forall u, In (EFetch u) tr -> truthy u = true)
  /\ (raises_objects h -> forall e, r = Throw e -> nullish e = false).
Proof.
  destruct t; unfold respond, save_first, save_url; cbv zeta;
    repeat respond_step;
    intros Heq; injection Heq as <- <-; rewrite ?app_nil_r;
    (split; [first [reflexivity | assumption] | split]);
    try (intros fetched Hin;
         first [ contradiction
               | match goal with
                 | H : forall u, In (EFetch u) _ -> u = _ |- _ => rewrite (H fetched Hin)
                 end;
                 first [ assumption
                       | match goal with
                         | H : extractImageUrls _ = Ok (_ :: _) |- _ =>
                             apply extractImageUrls_all_truthy in H;
                             inversion H; assumption
                         end ] ]);
    intros Hraises err Herr; try discriminate Herr; injection Herr as <-;
    first [ reflexivity
          | solve [eapply get_raises; eassumption]
          | solve [eapply extractImageUrls_raises; eassumption]
          | solve [eapply url_extractors_raise; eauto]
          | solve [eapply downloadFile_raises; eassumption] ].
Qed.

Lemma handle_case_facts (h : Host) (config : Config) (client : FalClient)
    (t : tool) (args : value) (tr : list event) (r : exc CallToolResult) :
  handle_case h config client t args = (tr, r) ->
  invocation_shape tr = true
  /\ (forall u, In (EFetch u) tr -> truthy u = true)
  /\ (raises_objects h -> forall e, r = Throw e -> nullish e = false).
Proof.
  destruct (safeParse (schema_of t) args) as [issues|input] eqn:Hparse.
  - rewrite (handle_case_invalid h config client t args issues Hparse).
    intros H. injection H as <- <-. repeat split; try contradiction.
    intros _ e He. injection He as <-. reflexivity.
  - rewrite (handle_case_parsed h config client t args input Hparse).
    destruct (client_call_race h client t (snd (rest_save_path input))) as [model ->].
    rewrite race_spec.
    destruct (fal_subscribe h model _ _) as [result|err|] eqn:Hsub; cbn [bind].
    + destruct (get result "data") as [data|e0] eqn:Hdata;
        [rewrite bind_lift_ok | rewrite bind_lift_throw].
      * destruct (respond h config t input (fst (rest_save_path input)) data)
          as [rtr rr] eqn:Hresp.
        destruct (respond_facts _ _ _ _ _ _ _ _ Hresp) as (Hshape & Hfetch & Hraise).
        intros H. injection H as <- <-. cbn [app invocation_shape In].
        split; [exact Hshape|]. split; [|exact Hraise].
        intros u [Hu|Hu]; [discriminate Hu | now apply Hfetch].
      * intros H. injection H as <- <-. cbn [app invocation_shape In].
        split; [reflexivity|]. split; [intros u [Hu|[]]; discriminate Hu|].
        intros _ e He. injection He as <-. exact (get_raises _ _ _ Hdata).
    + intros H. injection H as <- <-. cbn [invocation_shape In].
      split; [reflexivity|]. split; [intros u [Hu|[]]; discriminate Hu|].
      intros Hh e He. injection He as <-. exact (subscribe_raises h Hh _ _ _ _ Hsub).
    + intros H. injection H as <- <-. cbn [invocation_shape In].
      split; [reflexivity|]. split; [intros u [Hu|[]]; discriminate Hu|].
      intros _ e He. injection He as <-. reflexivity.
Qed.

Lemma callTool_cases (h : Host) (config : Config) (client : FalClient)
    (name : string) (args : value) :
  exists tr r,
    (match tool_of_name name with
     | Some t => handle_case h config client t args
     | None => throw (newError ("Unknown tool: " ++ name))
     end) = (tr, r)
    /\ invocation_shape tr = true
    /\ (forall u, In (EFetch u) tr -> truthy u = true)
    /\ (raises_objects h -> forall e, r = Throw e -> nullish e = false)
    /\ fst (callTool h config client name args) = tr
    /\ (forall e, r = Throw e -> nullish e = false ->
          exists res, snd (callTool h config client name args) = Ok res)
    /\ (forall res, r = Ok res -> snd (callTool h config client name args) = Ok res).
Proof.
  unfold callTool.
  destruct (match tool_of_name name with
            | Some t => handle_case h config client t args
            | None => throw (newError ("Unknown tool: " ++ name))
            end) as [tr r] eqn:Hbody.
  exists tr, r. split; [reflexivity|].
  assert (Hfacts : invocation_shape tr = true
                   /\ (forall u, In (EFetch u) tr -> truthy u = true)
                   /\ (raises_objects h -> forall e, r = Throw e -> nullish e = false)).
  { destruct (tool_of_name name) as [t|].
    - exact (handle_case_facts _ _ _ _ _ _ _ Hbody).
    - injection Hbody as <- <-. repeat split; try contradiction.
      intros _ e He. injection He as <-. reflexivity. }
  destruct Hfacts as (Hshape & Hfetch & Hraise).
  repeat split; auto.
  - destruct r as [res|e]; cbn [try_catch fst]; [reflexivity|].
    destruct (catch_spec h e) as (r' & -> & _). cbn [fst]. apply app_nil_r.
  - intros e -> Hn. cbn [try_catch].
    destruct (catch_object h e Hn) as (msg & _ & ->). cbn [snd]. eauto.
  - intros res ->. reflexivity.
Qed.

(** X22. Every failure is recovered into a response: under a host whose
    failures are error values (never [undefined] or [null]), the handler
    always returns a result and never rejects, whatever the tool name,
    the arguments, the upstream answer and the outcome of the
    download. *)
Theorem always_responds (h : Host) (config : Config) (client : FalClient)
    (name : string) (args : value) :
  raises_objects h ->
  exists tr res, callTool h config client name args = (tr, Ok res).
Proof.
  intros Hh.
  destruct (callTool_cases h config client name args)
    as (tr & r & _ & _ & _ & Hraise & Htr & Hthrow & Hok).
  destruct (callTool h config client name args) as [tr' r'] eqn:Hcall.
  cbn [fst snd] in *. subst tr'.
  destruct r as [res|e].
  - exists tr, res. now rewrite (Hok res eq_refl).
  - destruct (Hthrow e eq_refl (Hraise Hh e eq_refl)) as [res ->]. eauto.
Qed.

Lemma quiet_host_raises_objects (s : settled) :
  (forall err, s = Rejects err -> nullish err = false) -> raises_objects (host_with s).
Proof.
  intros Hs. constructor; cbn; try discriminate.
  - intros _ _ _ err. apply Hs.
  - intros _ response err H. injection H as <-. discriminate.
Qed.

Lemma always_responds_witness :
  exists tr res,
    callTool (host_with (Rejects (VStr "boom"))) default_config
      (createFalClient default_config) "inpaint"
      (obj [("prompt", VStr "fill"); ("image_url", VStr "i"); ("mask_url", VStr "m")])
    = (tr, Ok res).
Proof.
  apply always_responds. apply quiet_host_raises_objects.
  intros err H. injection H as <-. reflexivity.
Defined.

(** X23. The effects of an invocation come in one order: nothing before
    the upstream call; then at most one download, which creates the
    directory, fetches, and writes, in this order, and the write is the
    last effect; and the locator that is fetched is a truthy value. *)
Theorem effects_in_order (h : Host) (config : Config) (client : FalClient)
    (name : string) (args : value) :
  invocation_shape (fst (callTool h config client name args)) = true
  /\ forall u, In (EFetch u) (fst (callTool h config client name args)) ->
       truthy u = true.
Proof.
  destruct (callTool_cases h config client name args)
    as (tr & r & _ & Hshape & Hfetch & _ & -> & _).
  split; assumption.
Qed.

(* ================================================================== *)
(** ** Persisting the artifact *)
(* ================================================================== *)

Lemma append_empty_r (s : string) : s ++ "" = s.
Proof. induction s as [|c s IH]; cbn; congruence. Qed.

Lemma append_assoc_r (a b c : string) : (a ++ b) ++ c = a ++ b ++ c.
Proof. induction a as [|x a IH]; cbn; congruence. Qed.

Lemma or_string_explicit (p d : string) : p <> "" -> or_string (VStr p) d = p.
Proof.
  intros Hp. unfold or_string, js_or. now rewrite (truthy_VStr p Hp).
Qed.

Lemma or_string_default (v : value) (d : string) : truthy v = false -> or_string v d = d.
Proof. intros Hv. unfold or_string, js_or. now rewrite Hv. Qed.

Lemma download_then (h : Host) (url : value) (path txt : string)
    (dtr : list event) (r : exc string) :
  downloadFile h url path = (dtr, r) ->
  (_ <~ downloadFile h url path;; success txt)
  = (dtr, match r with
          | Ok _ => Ok {| text := txt; isError := false |}
          | Throw e => Throw e
          end).
Proof.
  intros ->. destruct r; cbn [bind success ret]; [now rewrite app_nil_r | reflexivity].
Qed.

Lemma save_url_run (h : Host) (config : Config) (url save_path : value)
    (absent : M CallToolResult) (prefix ext saved : string)
    (dtr : list event) (r : exc string) :
  truthy url = true ->
  downloadFile h url (or_string save_path (getAutoSavePath h config prefix ext)) = (dtr, r) ->
  save_url h config url save_path absent prefix ext saved
  = (dtr, match r with
          | Ok _ => Ok {| text := saved ++ or_string save_path
                                            (getAutoSavePath h config prefix ext);
                          isError := false |}
          | Throw e => Throw e
          end).
Proof.
  intros Hu Hd. unfold save_url. rewrite Hu. cbn [negb]. cbv zeta.
  now apply download_then.
Qed.

Lemma save_first_run (h : Host) (config : Config) (url : value) (more : list value)
    (save_path : value) (empty : M CallToolResult) (prefix ext saved : string)
    (dtr : list event) (r : exc string) :
  downloadFile h url (or_string save_path (getAutoSavePath h config prefix ext)) = (dtr, r) ->
  save_first h config (url :: more) save_path empty prefix ext saved
  = (dtr, match r with
          | Ok _ => Ok {| text := saved ++ or_string save_path
                                            (getAutoSavePath h config prefix ext);
                          isError := false |}
          | Throw e => Throw e
          end).
Proof. intros Hd. unfold save_first. cbv zeta. now apply download_then. Qed.

Ltac found_locator Hloc :=
  unfold extract_locator, truthy_or_none in Hloc; cbn [media_of] in Hloc;
  match type of Hloc with
  | exc_bind ?m _ = _ =>
      let Hx := fresh "Hextract" in
      destruct m as [x|] eqn:Hx; cbn [exc_bind] in Hloc; [|discriminate Hloc]
  end;
  match type of Hloc with
  | Ok (hd_error ?l) = _ => destruct l as [|first more]; [discriminate Hloc|]
  | Ok (if ?b then _ else _) = _ => destruct b eqn:?; [|discriminate Hloc]
  end;
  cbn [hd_error] in Hloc; injection Hloc as <-.

Ltac saved_by_tail h config :=
  match goal with
  | |- context [save_first _ _ _ _ _ ?prefix ?ext ?saved] =>
      exists (getAutoSavePath h config prefix ext);
      split; [right; exists prefix, ext; reflexivity|];
      intros dtr r Hd; exists saved, ""; rewrite append_empty_r;
      exact (save_first_run _ _ _ _ _ _ _ _ _ _ _ Hd)
  | |- context [save_url _ _ _ _ _ ?prefix ?ext ?saved] =>
      exists (getAutoSavePath h config prefix ext);
      split; [right; exists prefix, ext; reflexivity|];
      intros dtr r Hd; exists saved, ""; rewrite append_empty_r;
      apply save_url_run; assumption
  end.

(** Once a locator is found, a case downloads it to the explicit path,
    or else to an auto-derived path under the output directory, and its
    success message names that path. *)
Lemma respond_saved (h : Host) (config : Config) (t : tool)
    (input : list (string * value)) (save_path data url : value) :
  extract_locator t data = Ok (Some url) ->
  (t = segment_image -> truthy save_path = true) ->
  exists auto,
    (t = segment_image /\ auto = ""
     \/ exists prefix ext, auto = getAutoSavePath h config prefix ext)
    /\ forall dtr r,
         downloadFile h url (or_string save_path auto) = (dtr, r) ->
         exists pre post,
           respond h config t input save_path data
           = (dtr, match r with
                   | Ok _ => Ok {| text := pre ++ or_string save_path auto ++ post;
                                   isError := false |}
                   | Throw e => Throw e
                   end).
Proof.
  intros Hloc Hseg.
  destruct t; found_locator Hloc; unfold respond; cbv zeta;
    rewrite Hextract, bind_lift_ok; try saved_by_tail h config.
  - (* generate_image *)
    eexists. split; [right; do 2 eexists; reflexivity|].
    intros dtr r Hd.
    assert (Hn : nullish data = false) by (destruct data; discriminate || reflexivity).
    do 2 eexists. rewrite Hd, (get_prop data "seed" Hn).
    destruct r; cbn [bind]; [rewrite bind_lift_ok; cbn [success ret]; rewrite app_nil_r|];
      reflexivity.
  - (* segment_image *)
    exists "". split; [now left|]. rewrite (Hseg eq_refl).
    intros dtr r Hd.
    exists (("Segmentation complete." ++ nl ++ nl ++ "Raw result:" ++ nl
             ++ JSON_stringify h data) ++ nl ++ nl ++ "Mask saved to: "), "".
    rewrite append_empty_r, (download_then _ _ _ _ _ _ Hd).
    destruct r; [|reflexivity]. now rewrite !append_assoc_r.
Qed.

Lemma callTool_respond (h : Host) (config : Config) (client : FalClient)
    (t : tool) (args : value) (input : list (string * value))
    (tr0 rtr : list event) (result data : value) (rr : exc CallToolResult) :
  safeParse (schema_of t) args = inr input ->
  client_call h client t (snd (rest_save_path input)) = (tr0, Ok result) ->
  get result "data" = Ok data ->
  respond h config t input (lookup "save_path" input) data = (rtr, rr) ->
  fst (callTool h config client (name_of t) args) = (tr0 ++ rtr)%list
  /\ (forall res, rr = Ok res ->
        snd (callTool h config client (name_of t) args) = Ok res)
  /\ (forall e, rr = Throw e -> nullish e = false ->
        exists msg,
          handleError h e = Ok (newError msg)
          /\ snd (callTool h config client (name_of t) args)
             = Ok {| text := msg; isError := true |}).
Proof.
  intros Hparse Hcall Hdata Hresp.
  unfold callTool. rewrite tool_of_name_name_of.
  rewrite (handle_case_parsed h config client t args input Hparse), Hcall.
  cbn [bind]. rewrite Hdata, bind_lift_ok. cbn [rest_save_path fst]. rewrite Hresp.
  destruct rr as [res|e]; cbn [try_catch].
  - repeat split; try discriminate. intros res' H. now injection H as <-.
  - destruct (catch_spec h e) as (r' & Hr' & _). rewrite Hr'. cbn [fst snd].
    rewrite app_nil_r. repeat split; try discriminate.
    intros e' H Hn. injection H as <-.
    destruct (catch_object h e Hn) as (msg & Hmsg & Hcatch).
    rewrite Hcatch in Hr'. injection Hr' as <-. eauto.
Qed.

(** X24. An explicit [save_path] is honoured by every tool: when a
    locator is found and the validated arguments carry a non-empty
    [save_path], the invocation is the upstream call followed by the
    download of that locator to exactly that path; when the download
    returns, the response is a success whose text names the path, and
    when it raises an error value the response is that error,
    classified. *)
Theorem saved_at_explicit_path (h : Host) (config : Config) (client : FalClient)
    (t : tool) (args : value) (input : list (string * value))
    (tr0 : list event) (result data url : value) (p : string) :
  safeParse (schema_of t) args = inr input ->
  lookup "save_path" input = VStr p ->
  p <> "" ->
  client_call h client t (snd (rest_save_path input)) = (tr0, Ok result) ->
  get result "data" = Ok data ->
  extract_locator t data = Ok (Some url) ->
  exists dtr r,
    downloadFile h url p = (dtr, r)
    /\ fst (callTool h config client (name_of t) args) = (tr0 ++ dtr)%list
    /\ (forall x, r = Ok x ->
          exists pre post,
            snd (callTool h config client (name_of t) args)
            = Ok {| text := pre ++ p ++ post; isError := false |})
    /\ (forall e, r = Throw e -> nullish e = false ->
          exists msg,
            handleError h e = Ok (newError msg)
            /\ snd (callTool h config client (name_of t) args)
               = Ok {| text := msg; isError := true |}).
Proof.
  intros Hparse Hsave Hp Hcall Hdata Hloc.
  destruct (respond_saved h config t input (VStr p) data url Hloc
              (fun _ => truthy_VStr p Hp)) as (auto & _ & Hrun).
  rewrite (or_string_explicit p auto Hp) in Hrun.
  destruct (downloadFile h url p) as [dtr r] eqn:Hd.
  destruct (Hrun dtr r eq_refl) as (pre & post & Hresp).
  rewrite <- Hsave in Hresp.
  destruct (callTool_respond h config client t args input tr0 dtr result data _
              Hparse Hcall Hdata Hresp) as (Htr & Hok & Hthrow).
  exists dtr, r. split; [reflexivity|]. split; [exact Htr|]. split.
  - intros x ->. exists pre, post. now apply Hok.
  - intros e ->. now apply Hthrow.
Qed.

Lemma saved_at_explicit_path_witness :
  exists dtr r,
    downloadFile
      (host_with (Resolves (obj [("data", obj [("video_url", VStr "https://fal.media/v.mp4")])])))
      (VStr "https://fal.media/v.mp4") "clips/out.mp4" = (dtr, r)
    /\ fst (callTool
              (host_with (Resolves (obj [("data",
                 obj [("video_url", VStr "https://fal.media/v.mp4")])])))
              default_config (createFalClient default_config) (name_of text_to_video)
              (obj [("prompt", VStr "a dragon"); ("save_path", VStr "clips/out.mp4")]))
       = ([ESubscribe MODELS.TEXT_TO_VIDEO (obj [("prompt", VStr "a dragon")])
             (Num (120000 * 5))] ++ dtr)%list.
Proof.
  destruct (saved_at_explicit_path
              (host_with (Resolves (obj [("data",
                 obj [("video_url", VStr "https://fal.media/v.mp4")])])))
              default_config (createFalClient default_config) text_to_video
              (obj [("prompt", VStr "a dragon"); ("save_path", VStr "clips/out.mp4")])
              [("prompt", VStr "a dragon"); ("save_path", VStr "clips/out.mp4")]
              _ _ (obj [("video_url", VStr "https://fal.media/v.mp4")])
              (VStr "https://fal.media/v.mp4") "clips/out.mp4"
              eq_refl eq_refl ltac:(discriminate) eq_refl eq_refl eq_refl)
    as (dtr & r & Hd & Htr & _).
  exists dtr, r. split; [exact Hd | exact Htr].
Defined.

(** X25. Without a [save_path] (absent or empty), every tool but
    segmentation saves a found locator under the configured output
    directory: the download goes to
    [path.resolve(outputDir, `${prefix}-${timestamp}.${ext}`)] for a
    prefix and an extension of the tool, and the success text names that
    path. *)
Theorem saved_at_derived_path (h : Host) (config : Config) (client : FalClient)
    (t : tool) (args : value) (input : list (string * value))
    (tr0 : list event) (result data url : value) :
  safeParse (schema_of t) args = inr input ->
  truthy (lookup "save_path" input) = false ->
  t <> segment_image ->
  client_call h client t (snd (rest_save_path input)) = (tr0, Ok result) ->
  get result "data" = Ok data ->
  extract_locator t data = Ok (Some url) ->
  exists prefix ext dtr r,
    downloadFile h url
      (path_resolve h (outputDir config)
         (prefix ++ "-" ++ replace_colon_dot (Date_toISOString h) ++ "." ++ ext))
    = (dtr, r)
    /\ fst (callTool h config client (name_of t) args) = (tr0 ++ dtr)%list
    /\ (forall x, r = Ok x ->
          exists pre post,
            snd (callTool h config client (name_of t) args)
            = Ok {| text := pre
                            ++ path_resolve h (outputDir config)
                                 (prefix ++ "-" ++ replace_colon_dot (Date_toISOString h)
                                  ++ "." ++ ext)
                            ++ post;
                    isError := false |}).
Proof.
  intros Hparse Hsave Hseg Hcall Hdata Hloc.
  destruct (respond_saved h config t input (lookup "save_path" input) data url Hloc
              (fun H => False_ind _ (Hseg H))) as (auto & Hauto & Hrun).
  destruct Hauto as [[Ht _]|(prefix & ext & ->)]; [contradiction|].
  rewrite (or_string_default _ _ Hsave) in Hrun.
  destruct (downloadFile h url (getAutoSavePath h config prefix ext)) as [dtr r] eqn:Hd.
  destruct (Hrun dtr r eq_refl) as (pre & post & Hresp).
  destruct (callTool_respond h config client t args input tr0 dtr result data _
              Hparse Hcall Hdata Hresp) as (Htr & Hok & _).
  exists prefix, ext, dtr, r. split; [exact Hd|]. split; [exact Htr|].
  intros x ->. exists pre, post. now apply Hok.
Qed.

Lemma saved_at_derived_path_witness :
  exists prefix ext dtr r,
    downloadFile
      (host_with (Resolves (obj [("data", obj [("audio_url", VStr "https://fal.media/a.mp3")])])))
      (VStr "https://fal.media/a.mp3")
      ("./generated-media" ++ "/" ++ prefix ++ "-" ++ "2025-01-01T00-00-00-000Z" ++ "." ++ ext)
    = (dtr, r)
    /\ fst (callTool
              (host_with (Resolves (obj [("data",
                 obj [("audio_url", VStr "https://fal.media/a.mp3")])])))
              default_config (createFalClient default_config) (name_of generate_music)
              (obj [("prompt", VStr "jazz")]))
       = ([ESubscribe MODELS.GENERATE_MUSIC (obj [("prompt", VStr "jazz")])
             (Num (120000 * 5))] ++ dtr)%list.
Proof.
  destruct (saved_at_derived_path
              (host_with (Resolves (obj [("data",
                 obj [("audio_url", VStr "https://fal.media/a.mp3")])])))
              default_config (createFalClient default_config) generate_music
              (obj [("prompt", VStr "jazz")]) [("prompt", VStr "jazz")]
              _ _ (obj [("audio_url", VStr "https://fal.media/a.mp3")])
              (VStr "https://fal.media/a.mp3")
              eq_refl eq_refl ltac:(discriminate) eq_refl eq_refl eq_refl)
    as (prefix & ext & dtr & r & Hd & Htr & _).
  exists prefix, ext, dtr, r. split; [exact Hd | exact Htr].
Defined.

(** X26. The timestamp of a derived file name keeps its length and its
    characters, except that every [:] and [.] has become [-]: none of
    the two is left. *)
Theorem timestamp_sanitized (s : string) :
  String.length (replace_colon_dot s) = String.length s
  /\ (forall c, In c (list_ascii_of_string (replace_colon_dot s)) ->
        c <> ":"%char /\ c <> "."%char)
  /\ (forall n c, String.get n s = Some c -> c <> ":"%char -> c <> "."%char ->
        String.get n (replace_colon_dot s) = Some c).
Proof.
  induction s as [|a s (IHlen & IHin & IHget)]; cbn [replace_colon_dot].
  - repeat split; [contradiction | contradiction | discriminate].
  - cbn [String.length list_ascii_of_string]. split; [now rewrite IHlen|]. split.
    + intros c [<-|Hin]; [|now apply IHin].
      destruct (Ascii.eqb_spec a ":"); [split; discriminate|].
      destruct (Ascii.eqb_spec a "."); [split; discriminate|].
      cbn [orb]. split; assumption.
    + intros [|n] c; cbn [String.get].
      * intros H Hc Hd. injection H as ->.
        destruct (Ascii.eqb_spec c ":"); [contradiction|].
        destruct (Ascii.eqb_spec c "."); [contradiction|]. reflexivity.
      * apply IHget.
Qed.

(* ================================================================== *)
(** ** From the environment to the upstream call *)
(* ================================================================== *)





